(** * EasyDeL attention engine: kernel dispatch, KV cache and 8-bit codec

    A shallow embedding of
    - [easydel/kernels/flash_attention_2.py]   (module [Flash]),
    - [easydel/layers/attention_operator/splash.py] (module [Splash]),
    - [easydel/modules/flax_modeling_utils.py], [_concatenate_to_cache]
      (module [Cache]),
    - [easydel/layers/quantization/linear_8bit.py] (module [Quant]),
    and the properties of the design document that concern them. *)

From Stdlib Require Import ZArith QArith Qround Qabs Lia Lqa String.
From Stdlib Require Import Floats.SpecFloat.
From stdpp Require Import base decidable list strings.

Local Open Scope nat_scope.

(** ** Python exceptions as results *)

Inductive exn :=
| ValueError
| TypeError
| AssertionError
| ZeroDivisionError.

Inductive outcome (A : Type) :=
| Ok (a : A)
| Raise (e : exn).
Arguments Ok {A} a.
Arguments Raise {A} e.

Definition bind {A B} (m : outcome A) (k : A -> outcome B) : outcome B :=
  match m with
  | Ok a => k a
  | Raise e => Raise e
  end.

Notation "'let*' x ':=' m 'in' k" := (bind m (fun x => k))
  (at level 10, x pattern, m at level 100, k at level 200).

Definition raises {A} (m : outcome A) : Prop := exists e, m = Raise e.

(** Python's [a % b] and [a // b] on non-negative ints. *)
Definition py_mod (a b : nat) : outcome nat :=
  if b =? 0 then Raise ZeroDivisionError else Ok (a mod b).

Definition py_floordiv (a b : nat) : outcome nat :=
  if b =? 0 then Raise ZeroDivisionError else Ok (a / b).

(** ** flash_attention_2.py *)

Module Flash.

Inductive Backend := GPU | TPU | CPU.
Inductive Platform := TRITON | PALLAS | JAX.

#[global] Instance Backend_eq_dec : EqDecision Backend.
Proof. solve_decision. Defined.
#[global] Instance Platform_eq_dec : EqDecision Platform.
Proof. solve_decision. Defined.

(** [Backend(s)] and [Platform(s)]: the enum constructors called on a
    string raise [ValueError] for a value that is not a member. *)
Definition Backend_of_string (s : string) : outcome Backend :=
  if String.eqb s "gpu" then Ok GPU
  else if String.eqb s "tpu" then Ok TPU
  else if String.eqb s "cpu" then Ok CPU
  else Raise ValueError.

Definition Platform_of_string (s : string) : outcome Platform :=
  if String.eqb s "triton" then Ok TRITON
  else if String.eqb s "pallas" then Ok PALLAS
  else if String.eqb s "jax" then Ok JAX
  else Raise ValueError.

Section Dispatcher.

(** [scale] is the type of [softmax_scale] (a float, only passed through);
    [H] is the slice of a query/key/value tensor [b s h d] at one head,
    [B] the slice of a bias [b h q k] at one head. *)
Context {scale H B : Type}.

Record AttentionConfig := {
  blocksize_q : nat;
  blocksize_k : nat;
  softmax_scale : option scale;
  backend : option Backend;
  platform : option Platform;
}.

(** The environment the module reads: [get_backend().platform] and
    [os.environ.get("FORCE_MHA", "false")]. *)
Record Env := {
  jax_platform : string;
  FORCE_MHA : string;
}.

Definition _default_platform (b : Backend) : Platform :=
  match b with
  | GPU => TRITON
  | CPU => JAX
  | TPU => PALLAS
  end.

Definition __post_init__ (env : Env) (c : AttentionConfig) : outcome AttentionConfig :=
  let* b := match backend c with
            | None => Backend_of_string (jax_platform env)
            | Some b => Ok b
            end in
  let p := match platform c with
           | None => _default_platform b
           | Some p => p
           end in
  Ok {| blocksize_q := blocksize_q c; blocksize_k := blocksize_k c;
        softmax_scale := softmax_scale c;
        backend := Some b; platform := Some p |}.

Definition valid_combinations : list (option Backend * option Platform) :=
  [ (Some GPU, Some TRITON);
    (Some GPU, Some PALLAS);
    (Some GPU, Some JAX);
    (Some CPU, Some JAX);
    (Some TPU, Some JAX);
    (Some TPU, Some PALLAS) ].

Definition _validate_config (c : AttentionConfig) : outcome unit :=
  if bool_decide ((backend c, platform c) ∈ valid_combinations)
  then Ok tt
  else Raise ValueError.

(** A [FlashAttention] object holds its configuration. *)
Record FlashAttention := { config : AttentionConfig }.

(** [FlashAttention.__init__], given an already built configuration. *)
Definition __init__ (c : AttentionConfig) : outcome FlashAttention :=
  let* _ := _validate_config c in
  Ok {| config := c |}.

(** [create_flash_attention(backend, platform, blocksize_q=, blocksize_k=,
    softmax_scale=)]; an argument is an enum member, a string or [None]. *)
Definition create_flash_attention (env : Env)
    (b : option (Backend + string)) (p : option (Platform + string))
    (bq bk : nat) (sc : option scale) : outcome FlashAttention :=
  let* b' := match b with
             | Some (inr s) => let* x := Backend_of_string s in Ok (Some x)
             | Some (inl x) => Ok (Some x)
             | None => Ok None
             end in
  let* p' := match p with
             | Some (inr s) => let* x := Platform_of_string s in Ok (Some x)
             | Some (inl x) => Ok (Some x)
             | None => Ok None
             end in
  let* c := __post_init__ env
              {| blocksize_q := bq; blocksize_k := bk; softmax_scale := sc;
                 backend := b'; platform := p' |} in
  __init__ c.

(** [einops.repeat(x, "b s h d -> b s (h r) d", r=num_reps)]: along the
    head axis every head is followed by its copies ([h] major, [r] minor). *)
Definition einops_repeat_heads {X} (x : list X) (r : nat) : list X :=
  flat_map (fun h => replicate r h) x.

Definition repeat_kv_heads (key value : list H) (num_reps : nat)
  : list H * list H :=
  (einops_repeat_heads key num_reps, einops_repeat_heads value num_reps).

Definition _handle_bias (bias : option (list B)) (num_q_heads num_kv_heads : nat)
  : outcome (option (list B)) :=
  match bias with
  | None => Ok None
  | Some b =>
      if length b =? num_q_heads then Ok (Some b)
      else if (length b =? num_kv_heads) || (length b =? 1) then
        let* r := py_floordiv num_q_heads (length b) in
        Ok (Some (einops_repeat_heads b r))
      else Raise ValueError
  end.

Record TPUBlockSizes := {
  block_q : nat; block_k_major : nat; block_k : nat; block_b : nat;
  block_q_major_dkv : nat; block_k_major_dkv : nat; block_k_dkv : nat;
  block_q_dkv : nat; block_k_major_dq : nat; block_k_dq : nat;
  block_q_dq : nat;
}.

(** The kernels live outside this module ([easydel.kernels.gpu_ops],
    [cpu_ops] and JAX's Pallas TPU kernel); a dispatcher call is modelled
    by the kernel it invokes and the arguments it hands over. *)
Inductive kernel_call :=
| triton_flash_mha_attn_2_gpu (query key value : list H) (bias : option (list B))
    (sm : option scale) (bk bq : nat)
| triton_flash_gqa_attn_2_gpu (query key value : list H) (bias : option (list B))
    (sm : option scale) (bk bq : nat)
| pallas_flash_mha_attn_2_gpu (q k v : list H) (b : option (list B))
    (qblock kblock : nat) (sm : option scale)
| pallas_flash_attention_tpu (q k v : list H) (ab : option (list B))
    (sm : option scale) (bs : TPUBlockSizes)
| jax_flash_attn_2_mu (query_state key_state value_state : list H)
    (bias : option (list B)) (bq bk : nat) (sm : option scale).

(** The key and value tensors a kernel receives. *)
Definition kernel_key (c : kernel_call) : list H :=
  match c with
  | triton_flash_mha_attn_2_gpu _ k _ _ _ _ _ => k
  | triton_flash_gqa_attn_2_gpu _ k _ _ _ _ _ => k
  | pallas_flash_mha_attn_2_gpu _ k _ _ _ _ _ => k
  | pallas_flash_attention_tpu _ k _ _ _ _ => k
  | jax_flash_attn_2_mu _ k _ _ _ _ _ => k
  end.

Definition kernel_value (c : kernel_call) : list H :=
  match c with
  | triton_flash_mha_attn_2_gpu _ _ v _ _ _ _ => v
  | triton_flash_gqa_attn_2_gpu _ _ v _ _ _ _ => v
  | pallas_flash_mha_attn_2_gpu _ _ v _ _ _ _ => v
  | pallas_flash_attention_tpu _ _ v _ _ _ => v
  | jax_flash_attn_2_mu _ _ v _ _ _ _ => v
  end.

Definition force_mha (env : Env) : bool :=
  bool_decide (FORCE_MHA env ∈ ["true"; "1"; "on"]%string).

Definition _compute_triton (env : Env) (self : FlashAttention)
    (query key value : list H) (bias : option (list B)) : outcome kernel_call :=
  let c := config self in
  if (length query =? length key) || force_mha env then
    let* r := py_floordiv (length query) (length key) in
    let '(key, value) := repeat_kv_heads key value r in
    Ok (triton_flash_mha_attn_2_gpu query key value bias
          (softmax_scale c) (blocksize_k c) (blocksize_q c))
  else
    Ok (triton_flash_gqa_attn_2_gpu query key value bias
          (softmax_scale c) (blocksize_k c) (blocksize_q c)).

Definition _compute_pallas (self : FlashAttention)
    (query key value : list H) (bias : option (list B)) : outcome kernel_call :=
  let c := config self in
  let* r := py_floordiv (length query) (length key) in
  let '(key, value) := repeat_kv_heads key value r in
  if bool_decide (backend c = Some GPU) then
    Ok (pallas_flash_mha_attn_2_gpu query key value bias
          (blocksize_q c) (blocksize_k c) (softmax_scale c))
  else
    let block_sizes :=
      {| block_q := blocksize_q c; block_k_major := blocksize_k c;
         block_k := blocksize_k c; block_b := 1;
         block_q_major_dkv := blocksize_q c; block_k_major_dkv := blocksize_k c;
         block_k_dkv := blocksize_k c; block_q_dkv := blocksize_q c;
         block_k_major_dq := blocksize_k c; block_k_dq := blocksize_k c;
         block_q_dq := blocksize_q c |} in
    Ok (pallas_flash_attention_tpu query key value bias
          (softmax_scale c) block_sizes).

Definition _compute_jax (self : FlashAttention)
    (query key value : list H) (bias : option (list B)) : outcome kernel_call :=
  let c := config self in
  let* r := py_floordiv (length query) (length key) in
  let '(key, value) := repeat_kv_heads key value r in
  Ok (jax_flash_attn_2_mu query key value bias
        (blocksize_q c) (blocksize_k c) (softmax_scale c)).

(** [FlashAttention.__call__]: [query.shape[2]] is [length query]. *)
Definition __call__ (env : Env) (self : FlashAttention)
    (query key value : list H) (bias : option (list B)) : outcome kernel_call :=
  let num_q_heads := length query in
  let num_kv_heads := length key in
  let* m := py_mod num_q_heads num_kv_heads in
  if negb (m =? 0) then Raise ValueError
  else
    let* bias := _handle_bias bias num_q_heads num_kv_heads in
    match platform (config self) with
    | Some TRITON => _compute_triton env self query key value bias
    | Some PALLAS => _compute_pallas self query key value bias
    | _ => _compute_jax self query key value bias
    end.

(** The compatibility table of the design, on enum members. *)
Definition compatibility_table : list (Backend * Platform) :=
  [ (GPU, TRITON); (GPU, PALLAS); (GPU, JAX);
    (CPU, JAX); (TPU, JAX); (TPU, PALLAS) ].

(** A dispatcher call hands the kernel key and value heads repeated
    [q_heads // kv_heads] times. *)
Definition repeats_kv_before_kernel (env : Env) (self : FlashAttention)
    (query key value : list H) (bias : option (list B)) : Prop :=
  exists call : kernel_call,
    __call__ env self query key value bias = Ok call
    /\ kernel_key call = einops_repeat_heads key (length query / length key)
    /\ kernel_value call = einops_repeat_heads value (length query / length key).

(** The call goes to the kernel with native grouped-query support. *)
Definition native_gqa (env : Env) (self : FlashAttention)
    (query key : list H) : bool :=
  bool_decide (platform (config self) = Some TRITON)
  && negb ((length query =? length key) || force_mha env).

End Dispatcher.

Arguments AttentionConfig : clear implicits.
Arguments FlashAttention : clear implicits.
Arguments kernel_call : clear implicits.

End Flash.

(** ** attention_operator/splash.py *)

Module Splash.








End Splash.

(** ** flax_modeling_utils.py: the key/value cache *)

Module Cache.

(** [jnp.int32] arithmetic wraps around. *)
Definition int32_wrap (z : Z) : Z := ((z + 2 ^ 31) `mod` 2 ^ 32 - 2 ^ 31)%Z.
Definition add32 (a b : Z) : Z := int32_wrap (a + b).
Definition sub32 (a b : Z) : Z := int32_wrap (a - b).
Definition mul32 (a b : Z) : Z := int32_wrap (a * b).

(** An array [batch, sequence, heads, depth] is a list over the batch of
    lists over the sequence axis; an element is the [heads, depth] slab of
    one position, which the cache always reads and writes as a whole. *)
Definition tensor (A : Type) := list (list A).

Definition shape0 {A} (t : tensor A) : nat := length t.
Definition shape1 {A} (t : tensor A) : nat :=
  match t with
  | [] => 0
  | row :: _ => length row
  end.

(** A mask [batch, 1, query, key] of booleans. *)
Definition mask := list (list (list (list bool))).

Fixpoint mapM {A B} (f : A -> outcome B) (l : list A) : outcome (list B) :=
  match l with
  | [] => Ok []
  | a :: l' => let* b := f a in let* bs := mapM f l' in Ok (b :: bs)
  end.

Fixpoint zipM {A B C} (f : A -> B -> outcome C) (xs : list A) (ys : list B)
  : outcome (list C) :=
  match xs, ys with
  | x :: xs', y :: ys' =>
      let* c := f x y in let* cs := zipM f xs' ys' in Ok (c :: cs)
  | _, _ => Ok []
  end.

(** NumPy broadcasting along one axis: equal extents pair up, an extent
    of one is stretched, anything else is an error. *)
Definition broadcast {A B C} (f : A -> B -> outcome C)
    (xs : list A) (ys : list B) : outcome (list C) :=
  if length xs =? length ys then zipM f xs ys
  else match xs, ys with
       | [x], _ => mapM (f x) ys
       | _, [y] => mapM (fun x => f x y) xs
       | _, _ => Raise TypeError
       end.

Definition logical_and (a b : mask) : outcome mask :=
  broadcast (broadcast (broadcast (broadcast (fun x y => Ok (x && y))))) a b.

(** [flax.linen.combine_masks]: masks that are [None] are dropped, the
    others are and-ed together. *)
Definition combine_masks (pad_mask : mask) (attention_mask : option mask)
  : outcome (option mask) :=
  match attention_mask with
  | None => Ok (Some pad_mask)
  | Some m => let* r := logical_and pad_mask m in Ok (Some r)
  end.

(** [lax.dynamic_update_slice]: the update must fit in the operand, and a
    start index is clamped so that the whole update lands in bounds. *)
Definition clamp_index (start : Z) (operand_dim update_dim : nat) : nat :=
  Z.to_nat (Z.max 0 (Z.min start (Z.of_nat operand_dim - Z.of_nat update_dim))).

Definition update_slice {A} (operand update : list A) (start : nat) : list A :=
  take start operand ++ update ++ drop (start + length update) operand.

Definition dynamic_update_slice {A} (operand update : tensor A) (i0 i1 : Z)
  : outcome (tensor A) :=
  if (shape0 update <=? shape0 operand) && (shape1 update <=? shape1 operand)
  then
    let b := clamp_index i0 (shape0 operand) (shape0 update) in
    let s := clamp_index i1 (shape1 operand) (shape1 update) in
    Ok (take b operand
        ++ zip_with (fun row u => update_slice row u s)
             (take (shape0 update) (drop b operand)) update
        ++ drop (b + shape0 update) operand)
  else Raise TypeError.

Section KVCache.

(** [T] is a [heads, depth] slab of floats and [zeroT] the slab of zeros;
    [Q8] is its encoding by [fjformer]'s [Array8Bit], which is used here
    through [quantize_slab] and [materialize_slab] only. *)
Context {T Q8 : Type}.
Context (zeroT : T).
Context (quantize_slab : T -> Q8) (materialize_slab : Q8 -> T).

(** The value of a cache variable: a plain array or an [Array8Bit]. *)
Inductive stored :=
| Plain (t : tensor T)
| Array8Bit (q : tensor Q8).

Definition Array8Bit_quantize (t : tensor T) : stored :=
  Array8Bit (map (map quantize_slab) t).

(** The array a cache variable stands for when it is handed to a [lax]
    primitive. *)
Definition array_of (s : stored) : tensor T :=
  match s with
  | Plain t => t
  | Array8Bit q => map (map materialize_slab) q
  end.

Definition zeros_like (t : tensor T) : tensor T := map (map (fun _ => zeroT)) t.

(** The fields of [self.config] that [_concatenate_to_cache] reads;
    [mesh_sp] is [mesh.shape["sp"]], the number of shards of the sequence
    axis ([key_sequence_axis] is the mesh axis [sp]). *)
Record Config := {
  quantize_kv_cache : bool;
  use_sharded_kv_caching : bool;
  mesh_sp : nat;
}.

(** The three variables of the [cache] collection. *)
Record CacheVars := {
  cached_key : stored;
  cached_value : stored;
  cache_index : Z;
}.

(** [x.at[:, i].set(v)] where [v] has one slab per batch entry. *)
Definition at_set (x : tensor T) (i : nat) (v : list T) : outcome (tensor T) :=
  broadcast (fun row k => Ok (<[i := k]> row)) x v.

(** [x[:, -1]] *)
Definition last_position (x : tensor T) : outcome (list T) :=
  mapM (fun row => match last row with
                   | Some k => Ok k
                   | None => Raise TypeError
                   end) x.

(** The function that [shard_map] runs on the shard [axis_index]. *)
Definition fn (max_length : nat) (mesh_shape_sp : nat) (axis_index : nat)
    (_cached_key _cached_value _key _value : tensor T) (_cur_index : Z)
  : outcome (tensor T * tensor T) :=
  if (shape1 _key =? 1) && (shape1 _value =? 1) then
    let* sp_size := py_floordiv max_length mesh_shape_sp in
    let _cur_index :=
      sub32 _cur_index (mul32 (Z.of_nat axis_index) (Z.of_nat sp_size)) in
    if (0 <=? _cur_index)%Z && (_cur_index <? Z.of_nat sp_size)%Z then
      let* k := last_position _key in
      let* v := last_position _value in
      let* ck := at_set _cached_key (Z.to_nat _cur_index) k in
      let* cv := at_set _cached_value (Z.to_nat _cur_index) v in
      Ok (ck, cv)
    else Ok (_cached_key, _cached_value)
  else Raise AssertionError.

(** The block of the sequence axis that shard [p] of [P] holds. *)
Definition shard {A} (P p : nat) (t : tensor A) : tensor A :=
  let sp_size := shape1 t / P in
  map (fun row => take sp_size (drop (p * sp_size) row)) t.

(** The shards' outputs put together again along the sequence axis. *)
Definition unshard {A} (batch : nat) (outs : list (tensor A)) : tensor A :=
  foldr (zip_with app) (replicate batch []) outs.

(** [shard_map(fn, mesh, in_specs, out_specs)(cached_key, cached_value,
    key, value, cur_index)]: the cached arrays are split along the sequence
    axis, which the number of shards must divide; [key], [value] and
    [cur_index] are replicated. *)
Definition shard_map_fn (max_length P : nat)
    (cached_key cached_value key value : tensor T) (cur_index : Z)
  : outcome (tensor T * tensor T) :=
  let* r := py_mod (shape1 cached_key) P in
  if negb (r =? 0) then Raise ValueError
  else
    let* outs := mapM (fun p => fn max_length P p
                                  (shard P p cached_key) (shard P p cached_value)
                                  key value cur_index) (seq 0 P) in
    Ok (unshard (shape0 cached_key) (map fst outs),
        unshard (shape0 cached_value) (map snd outs)).

(** [jnp.broadcast_to(jnp.arange(max_length) < cur_index + n,
    batch_dims + (1, n, max_length))] *)
Definition pad_row (max_length : nat) (cur_index : Z) (n : nat) : list bool :=
  map (fun j => (Z.of_nat j <? add32 cur_index (Z.of_nat n))%Z) (seq 0 max_length).

Definition pad_mask (batch max_length : nat) (cur_index : Z) (n : nat) : mask :=
  replicate batch (replicate 1 (replicate n (pad_row max_length cur_index n))).

Definition sharded_path (cfg : Config) (query_len : nat) : bool :=
  (query_len =? 1) && use_sharded_kv_caching cfg && negb (quantize_kv_cache cfg).

Definition store (cfg : Config) (t : tensor T) : stored :=
  if quantize_kv_cache cfg then Array8Bit_quantize t else Plain t.

(** [FlaxAttentionModule._concatenate_to_cache]. [vars] is the [cache]
    collection before the call ([None]: not initialised yet) and
    [query_len] is [query_states.shape[1]]; the result is the collection
    after the call and the returned triple. *)
Definition _concatenate_to_cache (cfg : Config) (vars : option CacheVars)
    (key value : tensor T) (query_len : nat) (attention_mask : option mask)
  : outcome (CacheVars * (tensor T * tensor T * option mask)) :=
  match vars with
  | None =>
      Ok ({| cached_key := store cfg (zeros_like key);
             cached_value := store cfg (zeros_like value);
             cache_index := 0 |},
          (key, value, attention_mask))
  | Some c =>
      let batch := shape0 (array_of (cached_key c)) in
      let max_length := shape1 (array_of (cached_key c)) in
      let cur_index := cache_index c in
      let* kvm :=
        if sharded_path cfg query_len then
          let* kv :=
            shard_map_fn max_length (mesh_sp cfg)
              (array_of (cached_key c)) (array_of (cached_value c))
              key value cur_index in
          Ok (kv, attention_mask)
        else
          let* key := dynamic_update_slice (array_of (cached_key c)) key 0 cur_index in
          let* value := dynamic_update_slice (array_of (cached_value c)) value 0 cur_index in
          let num_updated_cache_vectors := query_len in
          let pad := pad_mask batch max_length cur_index num_updated_cache_vectors in
          let* attention_mask := combine_masks pad attention_mask in
          Ok ((key, value), attention_mask) in
      let '((key, value), attention_mask) := kvm in
      let num_updated_cache_vectors := query_len in
      Ok ({| cached_key := store cfg key;
             cached_value := store cfg value;
             cache_index := add32 (cache_index c) (Z.of_nat num_updated_cache_vectors) |},
          (key, value, attention_mask))
  end.

(** The write cursor and capacity of an initialised cache. *)
Definition write_cursor (c : CacheVars) : Z := cache_index c.
Definition max_length_of (c : CacheVars) : nat := shape1 (array_of (cached_key c)).

(** An array is rectangular of shape [b, m]. *)
Definition has_shape {A} (t : tensor A) (b m : nat) : Prop :=
  length t = b /\ Forall (fun row => length row = m) t.

(** The cache holds a key and a value array of shape [b, m], with a
    batch and a capacity that [int32] indices can address. *)
Definition cache_shape (c : CacheVars) (b m : nat) : Prop :=
  has_shape (array_of (cached_key c)) b m
  /\ has_shape (array_of (cached_value c)) b m
  /\ 0 < b /\ (Z.of_nat m < 2 ^ 31)%Z.

(** The cache variables are of the kind the configuration stores. *)
Definition stored_kind (cfg : Config) (s : stored) : Prop :=
  match s with
  | Plain _ => quantize_kv_cache cfg = false
  | Array8Bit _ => quantize_kv_cache cfg = true
  end.

(** A well-shaped append of [n] positions to a cache of shape [b, m]:
    [key] and [value] hold [n] positions for each of the [b] batch
    entries and the mask, when there is one, has shape [b, 1, n, m]. *)
Definition mask_shape (a : mask) (b n m : nat) : Prop :=
  length a = b
  /\ Forall (fun h => length h = 1
                      /\ Forall (fun q => length q = n
                                          /\ Forall (fun r => length r = m) q) h) a.

Definition request_shape (key value : tensor T) (attention_mask : option mask)
    (b n m : nat) : Prop :=
  has_shape key b n /\ has_shape value b n
  /\ match attention_mask with
     | Some a => mask_shape a b n m
     | None => True
     end.

(** The mesh can shard a sequence axis of [m] positions. *)
Definition mesh_ok (cfg : Config) (m : nat) : Prop :=
  use_sharded_kv_caching cfg = true ->
  0 < mesh_sp cfg /\ m mod mesh_sp cfg = 0.

(** An append that does not fit raises. *)
Definition capacity_checked (cfg : Config) (c : CacheVars)
    (key value : tensor T) (n : nat) (attention_mask : option mask) : Prop :=
  (Z.of_nat (max_length_of c) < write_cursor c + Z.of_nat n)%Z ->
  raises (_concatenate_to_cache cfg (Some c) key value n attention_mask).

(** The pad row and-ed into every row of a mask. *)
Definition and_pad (row : list bool) (a : mask) : mask :=
  map (map (map (zip_with andb row))) a.

(** The mask the non-sharded path returns. *)
Definition padded (batch max_length : nat) (cur_index : Z) (n : nat)
    (attention_mask : option mask) : option mask :=
  match attention_mask with
  | Some a => Some (and_pad (pad_row max_length cur_index n) a)
  | None => Some (pad_mask batch max_length cur_index n)
  end.


End KVCache.

(** Configurations and caches of the examples: slabs are numbers and
    the 8-bit encoding is the identity. *)
Definition plain_config : Config :=
  {| quantize_kv_cache := false; use_sharded_kv_caching := false; mesh_sp := 1 |}.

Definition sharded_config : Config :=
  {| quantize_kv_cache := false; use_sharded_kv_caching := true; mesh_sp := 4 |}.

(** A cache of two positions, both written. *)
Definition full_cache : @CacheVars nat nat :=
  {| cached_key := Plain [[1; 2]]; cached_value := Plain [[3; 4]];
     cache_index := 2 |}.

(** A cache of sixteen positions with the cursor at position 5. *)
Definition cache16 : @CacheVars nat nat :=
  {| cached_key := Plain [seq 100 16]; cached_value := Plain [seq 200 16];
     cache_index := 5 |}.


End Cache.

(** ** quantization/linear_8bit.py *)

Module Quant.

(** The arithmetic of the array dtype, as far as [quantize_8bit] and
    [dequantize_8bit] use it. The code is written once over this
    interface and read at two instances: IEEE binary32, which is what
    runs, and the exact rationals, which is what the design reasons in. *)
Class Arith (F : Type) := {
  f_abs : F -> F;
  f_maximum : F -> F -> F;
  f_minimum : F -> F -> F;
  f_div : F -> F -> F;
  f_mul : F -> F -> F;
  f_round : F -> F;
  f_of_int : Z -> F;
  f_1em5 : F;
  f_to_int8 : F -> Z;
}.

Section Codec.
Context {F : Type} `{Arith F}.

(** [jnp.amax(a, axis=-1)] of one row; a zero-size row has no maximum. *)
Definition amax (a : list F) : outcome F :=
  match a with
  | [] => Raise ValueError
  | a0 :: rest => Ok (foldl f_maximum a0 rest)
  end.

(** [jnp.clip(a, min=lo)] and [jnp.clip(a, min=lo, max=hi)]. *)
Definition clip_min (a lo : F) : F := f_maximum lo a.
Definition clip (a lo hi : F) : F := f_minimum hi (f_maximum lo a).

(** [quantize_8bit] on one row of the last axis (the reduction is
    [axis=-1, keepdims=True], so rows are quantized independently). *)
Definition quantize_8bit (x : list F) : outcome (list Z * F) :=
  let* max_val := amax (map f_abs x) in
  let max_val := clip_min max_val f_1em5 in
  let qscale := f_div max_val (f_of_int 127) in
  let qweight :=
    map (fun v =>
           f_to_int8 (clip (f_round (f_mul v (f_div (f_of_int 1) qscale)))
                        (f_of_int (-128)) (f_of_int 127))) x in
  Ok (qweight, qscale).

Definition dequantize_8bit (quants : list Z) (scales : F) : list F :=
  map (fun q => f_mul (f_of_int q) scales) quants.

(** The round trip of one row. *)
Definition roundtrip (x : list F) : outcome (list F * F) :=
  let* qs := quantize_8bit x in
  Ok (dequantize_8bit (fst qs) (snd qs), snd qs).

End Codec.

(** *** Exact rational arithmetic *)

Definition Qmaximum (a b : Q) : Q := if Qle_bool a b then b else a.
Definition Qminimum (a b : Q) : Q := if Qle_bool a b then a else b.

(** Rounding to the nearest integer, a tie going to the even one. *)
Definition Qround_half_even (x : Q) : Z :=
  let f := Qfloor x in
  match (x - inject_Z f ?= 1 # 2)%Q with
  | Lt => f
  | Gt => (f + 1)%Z
  | Eq => if Z.even f then f else (f + 1)%Z
  end.

Definition Qtruncate (x : Q) : Z :=
  if Qle_bool 0 x then Qfloor x else Qceiling x.

#[global] Instance exact : Arith Q := {
  f_abs := Qabs;
  f_maximum := Qmaximum;
  f_minimum := Qminimum;
  f_div := Qdiv;
  f_mul := Qmult;
  f_round := fun x => inject_Z (Qround_half_even x);
  f_of_int := inject_Z;
  f_1em5 := (1 # 100000)%Q;
  f_to_int8 := Qtruncate;
}.

(** *** IEEE 754 binary32 ([jnp.float32]), round to nearest even *)

Definition prec32 : Z := 24.
Definition emax32 : Z := 128.

Definition is_nan (x : spec_float) : bool :=
  match x with
  | S754_nan => true
  | _ => false
  end.

(** [jnp.maximum] and [jnp.minimum] propagate NaN. *)
Definition SFmaximum (a b : spec_float) : spec_float :=
  if is_nan a || is_nan b then S754_nan
  else if SFltb a b then b else a.

Definition SFminimum (a b : spec_float) : spec_float :=
  if is_nan a || is_nan b then S754_nan
  else if SFltb b a then b else a.

(** The integer nearest to [m * 2^e] for [e < 0], ties to even. *)
Definition nearest_even (m : positive) (e : Z) : Z :=
  let d := (2 ^ (- e))%Z in
  let q := (Zpos m / d)%Z in
  let r := (Zpos m `mod` d)%Z in
  match (2 * r ?= d)%Z with
  | Lt => q
  | Gt => (q + 1)%Z
  | Eq => if Z.even q then q else (q + 1)%Z
  end.

Definition SFof_int (z : Z) : spec_float :=
  binary_normalize prec32 emax32 z 0 false.

(** [jnp.round]: the float holding the nearest integer; the sign of a
    zero result is that of the argument. *)
Definition SFround (x : spec_float) : spec_float :=
  match x with
  | S754_finite s m e =>
      if (0 <=? e)%Z then x
      else
        let n := nearest_even m e in
        binary_normalize prec32 emax32 (if s then (- n)%Z else n) 0 s
  | _ => x
  end.

(** [astype(jnp.int8)] of a float within [-128, 127]: the fraction is
    dropped; NaN is taken to 0. *)
Definition SFto_int8 (x : spec_float) : Z :=
  match x with
  | S754_finite s m e =>
      let a := if (0 <=? e)%Z then (Zpos m * 2 ^ e)%Z
               else (Zpos m / 2 ^ (- e))%Z in
      if s then (- a)%Z else a
  | _ => 0%Z
  end.

(** The float32 nearest to the literal [1e-5], [0x1.4f8b58p-17]. *)
Definition SF_1em5 : spec_float := S754_finite false 10995116 (-40).

#[global] Instance binary32 : Arith spec_float := {
  f_abs := SFabs;
  f_maximum := SFmaximum;
  f_minimum := SFminimum;
  f_div := SFdiv prec32 emax32;
  f_mul := SFmul prec32 emax32;
  f_round := SFround;
  f_of_int := SFof_int;
  f_1em5 := SF_1em5;
  f_to_int8 := SFto_int8;
}.


(** *** The properties of a round trip the design states *)







(** A binary32 row on a rounding boundary: [1.0] and [0x1.22448ap-5],
    which is just above four and a half scales. *)
Definition boundary_row : list spec_float :=
  [ S754_finite false 8388608 (-23); S754_finite false 9511493 (-28) ].

End Quant.

(** ** flash_attention_2.py: enum values and what a kernel call holds *)

Module Dispatch.
Import Flash.

(** The values of the members of [Backend] and [Platform]. *)
Definition Backend_value (b : Backend) : string :=
  match b with
  | GPU => "gpu"
  | TPU => "tpu"
  | CPU => "cpu"
  end.

Definition Platform_value (p : Platform) : string :=
  match p with
  | TRITON => "triton"
  | PALLAS => "pallas"
  | JAX => "jax"
  end.

Section Kernels.
Context {scale H B : Type}.

(** The query and the bias a kernel receives. *)
Definition kernel_query (c : kernel_call scale H B) : list H :=
  match c with
  | triton_flash_mha_attn_2_gpu q _ _ _ _ _ _ => q
  | triton_flash_gqa_attn_2_gpu q _ _ _ _ _ _ => q
  | pallas_flash_mha_attn_2_gpu q _ _ _ _ _ _ => q
  | pallas_flash_attention_tpu q _ _ _ _ _ => q
  | jax_flash_attn_2_mu q _ _ _ _ _ _ => q
  end.

Definition kernel_bias (c : kernel_call scale H B) : option (list B) :=
  match c with
  | triton_flash_mha_attn_2_gpu _ _ _ b _ _ _ => b
  | triton_flash_gqa_attn_2_gpu _ _ _ b _ _ _ => b
  | pallas_flash_mha_attn_2_gpu _ _ _ b _ _ _ => b
  | pallas_flash_attention_tpu _ _ _ b _ _ => b
  | jax_flash_attn_2_mu _ _ _ b _ _ _ => b
  end.

(** The hardware a kernel is written for: the Triton kernels and
    [pallas_flash_mha_attn_2_gpu] for GPU, [pallas_flash_attention_tpu]
    for TPU; [jax_flash_attn_2_mu] runs anywhere. *)
Definition kernel_hardware (c : kernel_call scale H B) : option Backend :=
  match c with
  | triton_flash_mha_attn_2_gpu _ _ _ _ _ _ _ => Some GPU
  | triton_flash_gqa_attn_2_gpu _ _ _ _ _ _ _ => Some GPU
  | pallas_flash_mha_attn_2_gpu _ _ _ _ _ _ _ => Some GPU
  | pallas_flash_attention_tpu _ _ _ _ _ _ => Some TPU
  | jax_flash_attn_2_mu _ _ _ _ _ _ _ => None
  end.

End Kernels.

End Dispatch.

(** ** flax_modelling_utils.py and modelling_phi_flax.py: repeating heads *)

Module Heads.

(** [x[:, :, newaxis]] on a [b, n, s, h] array puts the new axis after
    the head axis: every head becomes a group of one. *)
Definition newaxis_after {X} (x : list X) : list (list X) := map (fun h => [h]) x.

(** [x[:, :, newaxis]] on a [b, s, n, h] array puts the new axis before
    the head axis: the heads become one group. *)
Definition newaxis_before {X} (x : list X) : list (list X) := [x].

(** [jnp.repeat(x, n, axis)]: every element along the axis is followed
    by its copies. *)
Definition jnp_repeat {X} (n : nat) (g : list X) : list X :=
  flat_map (fun h => replicate n h) g.

(** [reshape] that merges two adjacent axes, the first one major. *)
Definition merge_axes {X} (x : list (list X)) : list X := concat x.

(** [repeat_kv_bnsh] along the head axis of a [b, n, s, h] array; an
    element of the list is the [s, h] slice of one head. The repeat runs
    along the new axis, inside every group. *)
Definition repeat_kv_bnsh {X} (x : list X) (n_rep : nat) : list X :=
  if n_rep =? 1 then x
  else merge_axes (map (jnp_repeat n_rep) (newaxis_after x)).

(** [repeat_kv] of the Phi model, along the head axis of a [b, s, n, h]
    array; an element of the list is the vector of one head. The repeat
    runs along the new axis, which here holds the one group. *)
Definition repeat_kv {X} (x : list X) (n_rep : nat) : list X :=
  if n_rep =? 1 then x
  else merge_axes (jnp_repeat n_rep (newaxis_before x)).

(** [FlaxAttentionModule.repeat_key_value] *)
Definition repeat_key_value {X} (key value : list X) (num_reps : nat)
  : list X * list X :=
  (Flash.einops_repeat_heads key num_reps,
   Flash.einops_repeat_heads value num_reps).

End Heads.

(** ** modelling_phi_flax.py: the cache of the Phi attention *)

Module Phi.
Import Cache.

Section PhiCache.
Context {T : Type} (zeroT : T).

(** The [cache] collection of [FlaxPhiAttention]: plain arrays. *)
Record PhiCacheVars := {
  cached_key : tensor T;
  cached_value : tensor T;
  cache_index : Z;
}.

(** [FlaxPhiAttention._concatenate_to_cache]; [query_len] is
    [query.shape[1]]. *)
Definition _concatenate_to_cache (vars : option PhiCacheVars)
    (key value : tensor T) (query_len : nat) (attention_mask : option mask)
  : outcome (PhiCacheVars * (tensor T * tensor T * option mask)) :=
  match vars with
  | None =>
      Ok ({| cached_key := map (map (fun _ => zeroT)) key;
             cached_value := map (map (fun _ => zeroT)) value;
             cache_index := 0 |},
          (key, value, attention_mask))
  | Some c =>
      let batch := shape0 (cached_key c) in
      let max_length := shape1 (cached_key c) in
      let cur_index := cache_index c in
      let* key := dynamic_update_slice (cached_key c) key 0 cur_index in
      let* value := dynamic_update_slice (cached_value c) value 0 cur_index in
      let num_updated_cache_vectors := query_len in
      let new_index := add32 (cache_index c) (Z.of_nat num_updated_cache_vectors) in
      let pad := pad_mask batch max_length cur_index num_updated_cache_vectors in
      let* attention_mask := combine_masks pad attention_mask in
      Ok ({| cached_key := key; cached_value := value; cache_index := new_index |},
          (key, value, attention_mask))
  end.

End PhiCache.

Arguments PhiCacheVars : clear implicits.

(** The same variables in the collection of [FlaxAttentionModule]. *)
Definition as_plain {T Q8} (c : PhiCacheVars T) : @CacheVars T Q8 :=
  {| Cache.cached_key := Plain (cached_key c);
     Cache.cached_value := Plain (cached_value c);
     Cache.cache_index := cache_index c |}.

End Phi.

(** ** A decoding session: the calls a generation loop makes *)

Module Decode.
Import Cache.

Section Loop.
Context {T Q8 : Type}.
Context (zeroT : T) (quantize_slab : T -> Q8) (materialize_slab : Q8 -> T).

(** The arguments of one call. *)
Record step := {
  step_key : tensor T;
  step_value : tensor T;
  step_len : nat;
  step_mask : option mask;
}.

(** The calls of a session, one after the other on the same collection;
    the session stops at the first call that raises. *)
Fixpoint run (cfg : Config) (vars : option CacheVars) (steps : list step)
  : outcome (option CacheVars) :=
  match steps with
  | [] => Ok vars
  | s :: rest =>
      let* r := _concatenate_to_cache zeroT quantize_slab materialize_slab cfg vars
                  (step_key s) (step_value s) (step_len s) (step_mask s) in
      run cfg (Some r.1) rest
  end.

(** The steps are well-shaped appends to a cache of shape [b, m]. *)
Definition steps_shape (steps : list step) (b m : nat) : Prop :=
  Forall (fun s => request_shape (step_key s) (step_value s) (step_mask s)
                     b (step_len s) m) steps.

Definition total_len (steps : list step) : nat :=
  foldr (fun s acc => step_len s + acc) 0 steps.

(** [jnp.concatenate(xs, axis=1)] of arrays of batch [b]. *)
Definition concatenate_seq {A} (b : nat) (xs : list (tensor A)) : tensor A :=
  foldr (zip_with app) (replicate b []) xs.

(** A row with [n] positions from [cur] on replaced by [u]. *)
Definition splice {A} (cur n : nat) (row u : list A) : list A :=
  take cur row ++ u ++ drop (cur + n) row.

(** The configuration with sharding switched off. *)
Definition unsharded (cfg : Config) : Config :=
  {| quantize_kv_cache := quantize_kv_cache cfg;
     use_sharded_kv_caching := false;
     mesh_sp := mesh_sp cfg |}.

End Loop.

(** Examples: the cache of sixteen positions with the cursor anywhere,
    and the steps of a session on one batch row. *)
Definition cache16_at (i : Z) : @CacheVars nat nat :=
  {| cached_key := Plain [seq 100 16]; cached_value := Plain [seq 200 16];
     cache_index := i |}.

Definition init16 : @step nat :=
  {| step_key := [replicate 16 0]; step_value := [replicate 16 0];
     step_len := 16; step_mask := None |}.

Definition token (k v : nat) : @step nat :=
  {| step_key := [[k]]; step_value := [[v]]; step_len := 1; step_mask := None |}.

End Decode.

(** ** linear_8bit.py: rows of binary32 that are not all numbers *)

Module Float32.

(** Whether a float is a number: a zero or a finite value. *)
Definition is_number (x : spec_float) : bool :=
  match x with
  | S754_zero _ | S754_finite _ _ _ => true
  | _ => false
  end.

End Float32.

(** ** linear_8bit.py: the [Linear8bit] module *)

Module Linear8.
Import Quant.

(** A two-dimensional array as the list of its rows; a kernel
    [in_features, out_features] has [in_features] rows. *)
Definition matrix (A : Type) := list (list A).

(** [nnx.Linear], as far as the conversions read and write it; [K] is
    what its [kernel] parameter holds. A bias of [None] is one that was
    not set. *)
Record Linear (K F : Type) := {
  lin_in_features : nat;
  lin_out_features : nat;
  lin_use_bias : bool;
  lin_kernel : K;
  lin_bias : option (list F);
}.
Arguments lin_in_features {K F}.
Arguments lin_out_features {K F}.
Arguments lin_use_bias {K F}.
Arguments lin_kernel {K F}.
Arguments lin_bias {K F}.

Section Module8.
Context {F : Type} `{Arith F}.

(** [quantize_8bit] and [dequantize_8bit] on a kernel: the reduction
    runs along the last axis with [keepdims], so every row has its
    scale, and the scales [in_features, 1] are broadcast against the
    codes [in_features, out_features]. *)
Definition quantize_8bit_2d (x : matrix F) : outcome (matrix Z * list F) :=
  let* qs := Cache.mapM quantize_8bit x in
  Ok (map fst qs, map snd qs).

Definition dequantize_8bit_2d (quants : matrix Z) (scales : list F)
  : outcome (matrix F) :=
  Cache.broadcast (fun row s => Ok (dequantize_8bit row s)) quants scales.

Record Linear8bit := {
  in_features : nat;
  out_features : nat;
  use_bias : bool;
  kernel : option (matrix Z);
  scales : option (list F);
  bias : option (list F);
}.

Definition _quantize_kernel (k : option (matrix F))
  : outcome (option (matrix Z) * option (list F)) :=
  match k with
  | None => Ok (None, None)
  | Some k =>
      let* qs := quantize_8bit_2d k in
      Ok (Some qs.1, Some qs.2)
  end.

(** What [_dequantize_kernel] returns: [None], the [kernel] parameter
    itself when there are no scales, or the dequantized array. *)
Inductive dequantized :=
| NoKernel
| KernelParam (q : matrix Z)
| Dequantized (k : matrix F).

Definition _dequantize_kernel (self : Linear8bit) : outcome dequantized :=
  match kernel self, scales self with
  | None, None => Ok NoKernel
  | Some q, None => Ok (KernelParam q)
  | None, Some _ => Raise TypeError
  | Some q, Some s =>
      let* k := dequantize_8bit_2d q s in Ok (Dequantized k)
  end.

(** [Linear8bit.from_linear]: the new instance is built without
    initialisation, so its bias is [None] unless it is copied. *)
Definition from_linear (linear : Linear (option (matrix F)) F)
  : outcome Linear8bit :=
  let* qs := _quantize_kernel (lin_kernel linear) in
  Ok {| in_features := lin_in_features linear;
        out_features := lin_out_features linear;
        use_bias := lin_use_bias linear;
        kernel := qs.1;
        scales := qs.2;
        bias := if lin_use_bias linear then lin_bias linear else None |}.

(** [Linear8bit.to_linear] *)
Definition to_linear (self : Linear8bit) : outcome (Linear dequantized F) :=
  let* k := _dequantize_kernel self in
  Ok {| lin_in_features := in_features self;
        lin_out_features := out_features self;
        lin_use_bias := use_bias self;
        lin_kernel := k;
        lin_bias := if use_bias self then bias self else None |}.

Definition get_kernel (self : Linear8bit) : outcome dequantized :=
  _dequantize_kernel self.

End Module8.

Arguments Linear8bit : clear implicits.
Arguments dequantized : clear implicits.

(** *** The layer at the exact arithmetic *)

(** The product of a feature vector with a kernel, contracting the
    last axis of the inputs with the first of the kernel; the order of
    the summation is not the code's to choose and does not matter
    here. *)
Definition dot_general (inputs : list Q) (k : matrix Q) : outcome (list Q) :=
  if length inputs =? length k then
    Ok (foldr (fun xr acc => zip_with Qplus (map (Qmult xr.1) xr.2) acc)
          (replicate (length (hd [] k)) 0%Q) (zip inputs k))
  else Raise TypeError.

(** The product and the bias, as [__call__] and [nnx.Linear] compute
    them from a kernel array. *)
Definition affine (use_bias : bool) (inputs : list Q) (k : matrix Q)
    (bias : option (list Q)) : outcome (list Q) :=
  let* y := dot_general inputs k in
  if negb (Bool.eqb use_bias (match bias with Some _ => true | None => false end))
  then Raise AssertionError
  else match bias with
       | Some b => Cache.broadcast (fun a c => Ok (a + c)%Q) y b
       | None => Ok y
       end.

(** [Linear8bit.__call__] on one feature vector. A kernel that is the
    parameter itself is used as the array of its codes. *)
Definition __call__ (self : Linear8bit Q) (inputs : list Q)
  : outcome (list Q) :=
  let* k := _dequantize_kernel self in
  match k with
  | NoKernel => Raise AssertionError
  | KernelParam q => affine (use_bias self) inputs (map (map inject_Z) q) (bias self)
  | Dequantized k => affine (use_bias self) inputs k (bias self)
  end.





End Linear8.

(** ** flax_modeling_utils.py: rotary halves and process ranks *)

Module Utils.

Section Rotary.
Context {A : Type} (neg : A -> A).

(** [rotate_half] on the last axis: [x1] is the first [d // 2]
    elements, [x2] the others, the result [-x2] followed by [x1]. *)
Definition rotate_half (x : list A) : list A :=
  let x1 := take (length x / 2) x in
  let x2 := drop (length x / 2) x in
  map neg x2 ++ x1.

End Rotary.

(** What [get_ranks_and_size] puts in its dictionary beside the mesh. *)
Record ranks := {
  mp_node_size : nat;
  dp_node_size : nat;
  dp_node_rank : nat;
  mp_node_rank : nat;
}.

(** [get_ranks_and_size]: [tp] and [sp] are [mesh.shape["tp"]] and
    [mesh.shape["sp"]]; the three others are what
    [jax.local_device_count()], [jax.process_count()] and
    [jax.process_index()] return. *)
Definition get_ranks_and_size (tp sp local_device_count process_count
    process_index : nat) : outcome ranks :=
  let total_process_size := tp * sp in
  let* per_node := py_floordiv total_process_size local_device_count in
  let mp_node_size := Nat.max 1 per_node in
  let* dp_node_size := py_floordiv process_count mp_node_size in
  let* dp_node_rank := py_floordiv process_index mp_node_size in
  let* mp_node_rank := py_mod process_index mp_node_size in
  Ok {| mp_node_size := mp_node_size; dp_node_size := dp_node_size;
        dp_node_rank := dp_node_rank; mp_node_rank := mp_node_rank |}.

End Utils.

(** * Properties *)

(** ** The flash-attention dispatcher *)

Module FlashSpec.
Import Flash.

Lemma valid_combinations_table (b : Backend) (p : Platform) :
  bool_decide ((Some b, Some p) ∈ valid_combinations)
  = bool_decide ((b, p) ∈ compatibility_table).
Proof. destruct b, p; reflexivity. Qed.

Lemma einops_repeat_heads_length {X} (x : list X) (r : nat) :
  length (einops_repeat_heads x r) = length x * r.
Proof.
  unfold einops_repeat_heads.
  induction x as [|h x IH]; simpl; [reflexivity|].
  rewrite length_app, length_replicate, IH. lia.
Qed.

(** C9: a dispatcher built with a backend and a platform is accepted
    exactly when the pair is in the compatibility table; any other pair
    makes the construction itself raise [ValueError], so that no
    dispatcher exists on which attention could be computed. *)
Theorem construction_checks_compatibility_table
    {scale : Type} (env : Env) (b : Backend) (p : Platform)
    (bq bk : nat) (sc : option scale) :
  let c := {| blocksize_q := bq; blocksize_k := bk; softmax_scale := sc;
              backend := Some b; platform := Some p |} in
  __init__ c
  = (if bool_decide ((b, p) ∈ compatibility_table)
     then Ok {| config := c |} else Raise ValueError)
  /\ create_flash_attention env (Some (inl b)) (Some (inl p)) bq bk sc
     = __init__ c.
Proof.
  intros c. split; [|reflexivity].
  unfold __init__, _validate_config. simpl.
  rewrite valid_combinations_table.
  destruct (bool_decide _); reflexivity.
Qed.

(** C6, as stated, fails on the default GPU configuration: with 32 query
    heads and 8 key/value heads the Triton platform calls the grouped-query
    kernel with the 8 heads as they are. *)
Lemma triton_gqa_does_not_repeat :
  let env := {| jax_platform := "gpu"; FORCE_MHA := "false" |} in
  let self := {| config := {| blocksize_q := 128; blocksize_k := 128;
                              softmax_scale := @None Q;
                              backend := Some GPU; platform := Some TRITON |} |} in
  __call__ env self (seq 0 32) (seq 0 8) (seq 0 8) (@None (list nat))
  = Ok (triton_flash_gqa_attn_2_gpu (seq 0 32) (seq 0 8) (seq 0 8) None None 128 128)
  /\ ~ repeats_kv_before_kernel env self (seq 0 32) (seq 0 8) (seq 0 8) (@None (list nat)).
Proof.
  intros env self. split; [reflexivity|].
  intros (call & Hcall & Hk & _).
  vm_compute in Hcall. injection Hcall as <-.
  vm_compute in Hk. discriminate Hk.
Qed.

(** C6, amended: when the key/value head count divides the query head
    count, the Pallas and JAX platforms, and Triton when the head counts
    agree or FORCE_MHA is set, hand the kernel key and value heads
    repeated [q_heads // kv_heads] times, as many as the query has;
    Triton otherwise calls the grouped-query kernel with the heads
    unrepeated. When it does not divide, the call raises [ValueError]
    and no kernel is called. *)
Theorem call_repeats_or_dispatches_gqa
    {scale H B : Type} (env : Env) (self : FlashAttention scale)
    (query key value : list H) (bias : option (list B)) :
  0 < length key ->
  (length query mod length key <> 0 ->
     __call__ env self query key value bias = Raise ValueError)
  /\ (length query mod length key = 0 ->
      forall bias', _handle_bias bias (length query) (length key) = Ok bias' ->
      exists call,
        __call__ env self query key value bias = Ok call
        /\ if native_gqa env self query key
           then call = triton_flash_gqa_attn_2_gpu query key value bias'
                         (softmax_scale (config self))
                         (blocksize_k (config self)) (blocksize_q (config self))
           else kernel_key call
                = einops_repeat_heads key (length query / length key)
                /\ kernel_value call
                   = einops_repeat_heads value (length query / length key)
                /\ length (kernel_key call) = length query).
Proof.
  intros Hkv.
  assert (Hz : (length key =? 0) = false) by (apply Nat.eqb_neq; lia).
  split.
  - intros Hmod. unfold __call__, py_mod. rewrite Hz. simpl.
    apply Nat.eqb_neq in Hmod. rewrite Hmod. reflexivity.
  - intros Hmod bias' Hb.
    assert (Hlen : length (einops_repeat_heads key (length query / length key))
                   = length query).
    { rewrite einops_repeat_heads_length.
      pose proof (Nat.div_mod_eq (length query) (length key)). lia. }
    unfold __call__, py_mod. rewrite Hz. simpl.
    rewrite Hmod. simpl. rewrite Hb. simpl.
    unfold native_gqa, _compute_triton, _compute_pallas, _compute_jax, py_floordiv.
    rewrite Hz.
    destruct (platform (config self)) as [[| |]|]; simpl.
    + destruct ((length query =? length key) || force_mha env); simpl;
        eexists; (split; [reflexivity|]); simpl; auto.
    + destruct (bool_decide (backend (config self) = Some GPU));
        eexists; (split; [reflexivity|]); simpl; auto.
    + eexists; (split; [reflexivity|]); simpl; auto.
    + eexists; (split; [reflexivity|]); simpl; auto.
Qed.

(** With 32 query heads and 8 key/value heads on the JAX platform the
    kernel receives every key/value head four times. *)
Lemma call_repeats_or_dispatches_gqa_witness :
  let env := {| jax_platform := "cpu"; FORCE_MHA := "false" |} in
  let self := {| config := {| blocksize_q := 128; blocksize_k := 128;
                              softmax_scale := @None Q;
                              backend := Some CPU; platform := Some JAX |} |} in
  0 < length (seq 0 8)
  /\ 32 mod 8 = 0 /\ 32 / 8 = 4
  /\ exists call,
       __call__ env self (seq 0 32) (seq 0 8) (seq 0 8) (@None (list nat)) = Ok call
       /\ kernel_key call = einops_repeat_heads (seq 0 8) 4
       /\ length (kernel_key call) = 32.
Proof.
  intros env self.
  assert (Hpos : 0 < length (seq 0 8)) by (simpl; lia).
  split; [exact Hpos|]. split; [reflexivity|]. split; [reflexivity|].
  destruct (call_repeats_or_dispatches_gqa env self (seq 0 32) (seq 0 8)
              (seq 0 8) (@None (list nat)) Hpos) as [_ Hdiv].
  destruct (Hdiv eq_refl None eq_refl) as (call & Hcall & Hk & _ & Hl).
  exists call. split; [exact Hcall|]. split; [exact Hk|exact Hl].
Defined.

(** 30 query heads over 8 key/value heads: [ValueError]. *)
Example call_30_over_8_raises :
  __call__ {| jax_platform := "gpu"; FORCE_MHA := "false" |}
    {| config := {| blocksize_q := 128; blocksize_k := 128;
                    softmax_scale := @None Q;
                    backend := Some GPU; platform := Some TRITON |} |}
    (seq 0 30) (seq 0 8) (seq 0 8) (@None (list nat))
  = Raise ValueError.
Proof. reflexivity. Qed.

End FlashSpec.

(** ** The splash strategy *)

Module SplashSpec.
Import Splash.



End SplashSpec.

(** ** The 8-bit codec *)

Module QuantSpec.
Import Quant.

Local Open Scope Q_scope.















Local Close Scope Q_scope.

(** *** binary32 *)


Lemma SFmaximum_not_nan (a b : spec_float) :
  is_nan a = false -> is_nan b = false -> is_nan (SFmaximum a b) = false.
Proof.
  intros Ha Hb. unfold SFmaximum. rewrite Ha, Hb. simpl.
  destruct (SFltb a b); assumption.
Qed.

Lemma SFabs_not_nan (a : spec_float) : is_nan a = false -> is_nan (SFabs a) = false.
Proof. destruct a; simpl; congruence. Qed.



Lemma quantize_f32_unfold (x0 : spec_float) (xs : list spec_float) :
  let m := SFmaximum SF_1em5 (foldl SFmaximum (SFabs x0) (map SFabs xs)) in
  let s := SFdiv prec32 emax32 m (SFof_int 127) in
  quantize_8bit (x0 :: xs)
  = Ok (map (fun v => f_to_int8 (clip (f_round (f_mul v (f_div (f_of_int 1) s)))
                                   (f_of_int (-128)) (f_of_int 127))) (x0 :: xs),
        s).
Proof. reflexivity. Qed.



(** On the boundary row the scale is [0x1.020408p-7]; the reciprocal of
    the scale rounds to 127, the product [x * 127] rounds to 4.5 and
    that to the code 4, which stands for [0x1.020408p-5]. *)
Example boundary_row_roundtrip :
  quantize_8bit boundary_row = Ok ([127%Z; 4%Z], S754_finite false 8454660 (-30))
  /\ roundtrip boundary_row
     = Ok ([S754_finite false 8388608 (-23); S754_finite false 8454660 (-28)],
           S754_finite false 8454660 (-30)).
Proof. split; vm_compute; reflexivity. Qed.







End QuantSpec.

(** ** The key/value cache *)

Module CacheSpec.
Import Cache.

Lemma int32_wrap_id (z : Z) :
  (- 2 ^ 31 <= z < 2 ^ 31)%Z -> int32_wrap z = z.
Proof.
  intros Hz. unfold int32_wrap.
  rewrite Z.mod_small by lia. lia.
Qed.

Lemma has_shape_shape1 {A} (t : tensor A) (b m : nat) :
  has_shape t b m -> 0 < b -> shape1 t = m.
Proof.
  intros [Hlen Hrows] Hb. destruct t as [|row t]; simpl in *; [lia|].
  inversion Hrows; subst. reflexivity.
Qed.

Lemma has_shape_shape0 {A} (t : tensor A) (b m : nat) :
  has_shape t b m -> shape0 t = b.
Proof. intros [Hlen _]. exact Hlen. Qed.

Lemma zipM_ok {A B C} (f : A -> B -> outcome C) (g : A -> B -> C)
    (xs : list A) (ys : list B) :
  (forall x y, x ∈ xs -> y ∈ ys -> f x y = Ok (g x y)) ->
  zipM f xs ys = Ok (zip_with g xs ys).
Proof.
  revert ys. induction xs as [|x xs IH]; intros ys Hf; [reflexivity|].
  destruct ys as [|y ys]; [reflexivity|]. simpl.
  rewrite Hf by (apply list_elem_of_here). simpl.
  rewrite IH; [reflexivity|].
  intros x' y' Hx Hy. apply Hf; apply list_elem_of_further; assumption.
Qed.

Lemma broadcast_same_length {A B C} (f : A -> B -> outcome C)
    (xs : list A) (ys : list B) :
  length xs = length ys -> broadcast f xs ys = zipM f xs ys.
Proof.
  intros Hlen. unfold broadcast.
  rewrite (proj2 (Nat.eqb_eq _ _) Hlen). reflexivity.
Qed.

Lemma zip_with_replicate_l {A B C} (g : A -> B -> C) (x : A) (ys : list B) :
  zip_with g (replicate (length ys) x) ys = map (g x) ys.
Proof. induction ys as [|y ys IH]; simpl; [reflexivity|]. rewrite IH. reflexivity. Qed.

(** The update of a row: positions before the start are kept. *)
Lemma take_update_slice {A} (row u : list A) (s k : nat) :
  k <= s -> s <= length row -> take k (update_slice row u s) = take k row.
Proof.
  intros Hk Hs. unfold update_slice.
  rewrite take_app_le by (rewrite length_take; lia).
  rewrite take_take. f_equal. lia.
Qed.

Lemma length_update_slice {A} (row u : list A) (s : nat) :
  s + length u <= length row -> length (update_slice row u s) = length row.
Proof.
  intros Hs. unfold update_slice.
  rewrite !length_app, length_take, length_drop. lia.
Qed.

Lemma lookup_update_slice {A} (row u : list A) (s i : nat) :
  s + length u <= length row -> i < length u ->
  update_slice row u s !! (s + i) = u !! i.
Proof.
  intros Hs Hi. unfold update_slice.
  rewrite lookup_app_r by (rewrite length_take; lia).
  rewrite length_take, Nat.min_l by lia.
  replace (s + i - s) with i by lia.
  apply lookup_app_l. exact Hi.
Qed.

Lemma clamp_index_0 (d : nat) : clamp_index 0 d d = 0.
Proof. unfold clamp_index. lia. Qed.

Lemma clamp_index_fit (cur : Z) (m n : nat) :
  (0 <= cur)%Z -> (cur + Z.of_nat n <= Z.of_nat m)%Z ->
  clamp_index cur m n = Z.to_nat cur.
Proof. intros H0 Hfit. unfold clamp_index. lia. Qed.

Lemma clamp_index_full (cur : Z) (m n : nat) :
  n <= m -> (Z.of_nat m < cur + Z.of_nat n)%Z ->
  clamp_index cur m n = m - n.
Proof. intros Hn Hfull. unfold clamp_index. lia. Qed.

Lemma clamp_index_bound (cur : Z) (m n : nat) :
  n <= m -> clamp_index cur m n + n <= m.
Proof. intros Hn. unfold clamp_index. lia. Qed.

(** [dynamic_update_slice] of a [b, m] array by a [b, n] one at
    [(0, cur)]: every row is updated at the clamped start. *)
Lemma dynamic_update_slice_rows {A} (operand update : tensor A) (b m n : nat) (cur : Z) :
  has_shape operand b m -> has_shape update b n -> 0 < b -> n <= m ->
  dynamic_update_slice operand update 0 cur
  = Ok (zip_with (fun row u => update_slice row u (clamp_index cur m n))
          operand update).
Proof.
  intros Ho Hu Hb Hn. unfold dynamic_update_slice.
  rewrite (has_shape_shape0 _ _ _ Ho), (has_shape_shape0 _ _ _ Hu).
  rewrite (has_shape_shape1 _ _ _ Ho Hb), (has_shape_shape1 _ _ _ Hu Hb).
  rewrite Nat.leb_refl, (proj2 (Nat.leb_le _ _) Hn). simpl.
  rewrite clamp_index_0, take_0, drop_0. simpl.
  destruct Ho as [Ho _].
  rewrite take_ge by lia. rewrite drop_ge by lia.
  rewrite app_nil_r. reflexivity.
Qed.

Lemma has_shape_zip_with {A B} (g : list A -> list B -> list A)
    (t : tensor A) (u : tensor B) (b m n : nat) :
  has_shape t b m -> has_shape u b n ->
  (forall row r, length row = m -> length r = n -> length (g row r) = m) ->
  has_shape (zip_with g t u) b m.
Proof.
  intros [Ht Hrows] [Hu Hurows] Hg. split.
  - rewrite length_zip_with; lia.
  - clear Ht Hu. revert u Hurows.
    induction Hrows as [|row t Hrow _ IH]; intros u Hurows; [constructor|].
    destruct Hurows as [|r u Hr Hurows]; simpl; constructor.
    + apply Hg; assumption.
    + apply IH. exact Hurows.
Qed.

Lemma broadcast_replicate {A B C} (f : A -> B -> outcome C) (g : B -> C)
    (x : A) (ys : list B) (k : nat) :
  length ys = k -> Forall (fun y => f x y = Ok (g y)) ys ->
  broadcast f (replicate k x) ys = Ok (map g ys).
Proof.
  intros Hlen Hf. subst k.
  rewrite broadcast_same_length by (rewrite length_replicate; reflexivity).
  rewrite (zipM_ok f (fun _ y => g y)).
  - rewrite zip_with_replicate_l. reflexivity.
  - intros x' y Hx Hy. apply elem_of_replicate in Hx as [-> _].
    rewrite Forall_forall in Hf. apply Hf. exact Hy.
Qed.

Lemma length_pad_row (m : nat) (cur : Z) (n : nat) : length (pad_row m cur n) = m.
Proof. unfold pad_row. rewrite length_map, length_seq. reflexivity. Qed.

Lemma lookup_pad_row (m : nat) (cur : Z) (n j : nat) :
  j < m ->
  pad_row m cur n !! j = Some (Z.of_nat j <? add32 cur (Z.of_nat n))%Z.
Proof.
  intros Hj. unfold pad_row.
  change (map ?f ?l) with (f <$> l).
  rewrite list_lookup_fmap, lookup_seq_lt by exact Hj. reflexivity.
Qed.

Lemma logical_and_pad (a : mask) (b n m : nat) (cur : Z) :
  mask_shape a b n m ->
  logical_and (pad_mask b m cur n) a = Ok (and_pad (pad_row m cur n) a).
Proof.
  intros [Hb Hrows]. unfold logical_and, pad_mask, and_pad.
  apply broadcast_replicate; [exact Hb|].
  eapply Forall_impl; [exact Hrows|].
  intros h [Hh Hq]. simpl in Hh, Hq.
  apply broadcast_replicate; [exact Hh|].
  eapply Forall_impl; [exact Hq|].
  intros q [Hqn Hr]. simpl in Hqn, Hr.
  apply broadcast_replicate; [exact Hqn|].
  eapply Forall_impl; [exact Hr|].
  intros r Hrm. simpl in Hrm.
  rewrite broadcast_same_length by (rewrite length_pad_row; lia).
  apply zipM_ok. intros; reflexivity.
Qed.

Lemma combine_masks_padded (attention_mask : option mask) (b n m : nat) (cur : Z) :
  match attention_mask with Some a => mask_shape a b n m | None => True end ->
  combine_masks (pad_mask b m cur n) attention_mask
  = Ok (padded b m cur n attention_mask).
Proof.
  destruct attention_mask as [a|]; intros Ha; simpl; [|reflexivity].
  rewrite (logical_and_pad a b n m cur Ha). reflexivity.
Qed.

Section Unsharded.
Context {T Q8 : Type}.
Context (zeroT : T) (quantize_slab : T -> Q8) (materialize_slab : Q8 -> T).

Lemma has_shape_map_map {A B} (f : A -> B) (t : tensor A) (b m : nat) :
  has_shape t b m -> has_shape (map (map f) t) b m.
Proof.
  intros [Hb Hrows]. split; [rewrite length_map; exact Hb|].
  apply Forall_map. eapply Forall_impl; [exact Hrows|].
  intros row Hrow. simpl. rewrite length_map. exact Hrow.
Qed.

Lemma array_of_store_shape (cfg : Config) (t : tensor T) (b m : nat) :
  has_shape t b m ->
  has_shape (array_of materialize_slab (store quantize_slab cfg t)) b m.
Proof.
  intros Ht. unfold store, Array8Bit_quantize.
  destruct (quantize_kv_cache cfg); simpl; [|exact Ht].
  apply has_shape_map_map, has_shape_map_map. exact Ht.
Qed.

Lemma array_of_store_plain (cfg : Config) (t : tensor T) :
  quantize_kv_cache cfg = false ->
  array_of materialize_slab (store quantize_slab cfg t) = t.
Proof. intros Hq. unfold store. rewrite Hq. reflexivity. Qed.

(** The non-sharded path: both arrays are updated at the clamped start,
    the pad mask is and-ed in, the cursor moves on by [n]. *)
Lemma append_unsharded (cfg : Config) (c : CacheVars) (key value : tensor T)
    (n : nat) (attention_mask : option mask) (b m : nat) :
  sharded_path cfg n = false ->
  cache_shape materialize_slab c b m ->
  request_shape key value attention_mask b n m ->
  n <= m ->
  let s := clamp_index (cache_index c) m n in
  let k := zip_with (fun row u => update_slice row u s)
             (array_of materialize_slab (cached_key c)) key in
  let v := zip_with (fun row u => update_slice row u s)
             (array_of materialize_slab (cached_value c)) value in
  _concatenate_to_cache zeroT quantize_slab materialize_slab cfg (Some c)
    key value n attention_mask
  = Ok ({| cached_key := store quantize_slab cfg k;
           cached_value := store quantize_slab cfg v;
           cache_index := add32 (cache_index c) (Z.of_nat n) |},
        (k, v, padded b m (cache_index c) n attention_mask)).
Proof.
  intros Hpath (Hck & Hcv & Hb & Hm) (Hk & Hv & Hmask) Hn s k v.
  unfold _concatenate_to_cache. rewrite Hpath.
  rewrite (dynamic_update_slice_rows _ _ b m n _ Hck Hk Hb Hn).
  rewrite (dynamic_update_slice_rows _ _ b m n _ Hcv Hv Hb Hn).
  cbn [bind].
  rewrite (has_shape_shape0 _ _ _ Hck), (has_shape_shape1 _ _ _ Hck Hb).
  rewrite (combine_masks_padded attention_mask b n m _ Hmask).
  reflexivity.
Qed.

Lemma has_shape_updated (t u : tensor T) (b m n s : nat) :
  has_shape t b m -> has_shape u b n -> s + n <= m ->
  has_shape (zip_with (fun row r => update_slice row r s) t u) b m.
Proof.
  intros Ht Hu Hs. apply (has_shape_zip_with _ t u b m n Ht Hu).
  intros row r Hrow Hr. rewrite length_update_slice; lia.
Qed.

(** Rows updated at a start not below [k] keep their first [k] positions. *)
Lemma take_updated (t u : tensor T) (b m s k : nat) :
  has_shape t b m -> k <= s -> s <= m ->
  map (take k) (zip_with (fun row r => update_slice row r s) t u)
  = map (take k) (take (length u) t).
Proof.
  intros [_ Hrows] Hk Hs. revert u.
  induction Hrows as [|row t Hrow _ IH]; intros u; simpl.
  - destruct u; reflexivity.
  - destruct u as [|r u]; [reflexivity|]. simpl.
    rewrite take_update_slice by lia. rewrite IH. reflexivity.
Qed.

End Unsharded.

(** *** The sharded write *)

(** The block [p] of a row, [sp] positions long. *)
Lemma chunk_insert {A} (row : list A) (sp p c : nat) (x : A) :
  take sp (drop (p * sp) (<[c := x]> row))
  = if bool_decide (p * sp <= c < p * sp + sp)
    then <[c - p * sp := x]> (take sp (drop (p * sp) row))
    else take sp (drop (p * sp) row).
Proof.
  destruct (decide (c < p * sp)) as [Hlt|Hge].
  - rewrite drop_insert_lt by exact Hlt.
    rewrite bool_decide_eq_false_2 by lia. reflexivity.
  - rewrite drop_insert_ge by lia.
    destruct (decide (c - p * sp < sp)) as [Hin|Hout].
    + rewrite take_insert_lt by exact Hin.
      rewrite bool_decide_eq_true_2 by lia. reflexivity.
    + rewrite take_insert_ge by lia.
      rewrite bool_decide_eq_false_2 by lia. reflexivity.
Qed.

Lemma mapM_ok {A B} (f : A -> outcome B) (g : A -> B) (l : list A) :
  Forall (fun a => f a = Ok (g a)) l -> mapM f l = Ok (map g l).
Proof.
  induction 1 as [|a l Ha _ IH]; simpl; [reflexivity|].
  rewrite Ha. simpl. rewrite IH. reflexivity.
Qed.

Lemma last_position_tokens {T} (key : tensor T) (b : nat) :
  has_shape key b 1 -> last_position key = Ok (concat key).
Proof.
  intros [_ Hrows]. unfold last_position.
  induction Hrows as [|row key Hrow _ IH]; [reflexivity|].
  destruct row as [|k [|? ?]]; simpl in Hrow; try lia.
  cbn [mapM last bind]. rewrite IH. reflexivity.
Qed.

Lemma length_tokens {T} (key : tensor T) (b : nat) :
  has_shape key b 1 -> length (concat key) = b.
Proof.
  intros [Hb Hrows]. subst b.
  induction Hrows as [|row key Hrow _ IH]; [reflexivity|].
  simpl. rewrite length_app, IH, Hrow. reflexivity.
Qed.

Lemma at_set_ok {T} (x : tensor T) (i : nat) (v : list T) :
  length x = length v ->
  at_set x i v = Ok (zip_with (fun row k => <[i := k]> row) x v).
Proof.
  intros Hlen. unfold at_set.
  rewrite broadcast_same_length by exact Hlen.
  apply zipM_ok. intros; reflexivity.
Qed.

Lemma shard_chunks {A} (P p : nat) (t : tensor A) (b m : nat) :
  has_shape t b m -> 0 < b ->
  shard P p t = map (fun row => take (m / P) (drop (p * (m / P)) row)) t.
Proof.
  intros Ht Hb. unfold shard. rewrite (has_shape_shape1 _ _ _ Ht Hb). reflexivity.
Qed.

Lemma has_shape_inserted {T} (t : tensor T) (ks : list T) (b m c : nat) :
  has_shape t b m -> length ks = b ->
  has_shape (zip_with (fun row k => <[c := k]> row) t ks) b m.
Proof.
  intros [Hb Hrows] Hks. split; [rewrite length_zip_with; lia|].
  clear Hb Hks. revert ks.
  induction Hrows as [|row t Hrow _ IH]; intros ks; [constructor|].
  destruct ks as [|k ks]; simpl; constructor.
  - rewrite length_insert. exact Hrow.
  - apply IH.
Qed.

(** The block [p] of an array written at position [c] is the block
    written at the local offset when it holds [c], else the block as it
    was. *)
Lemma chunks_inserted {T} (t : tensor T) (ks : list T) (sp p c : nat) :
  length t = length ks ->
  map (fun row => take sp (drop (p * sp) row))
    (zip_with (fun row k => <[c := k]> row) t ks)
  = if bool_decide (p * sp <= c < p * sp + sp)
    then zip_with (fun row k => <[c - p * sp := k]> row)
           (map (fun row => take sp (drop (p * sp) row)) t) ks
    else map (fun row => take sp (drop (p * sp) row)) t.
Proof.
  revert ks. induction t as [|row t IH]; intros ks Hlen.
  - destruct (bool_decide _); reflexivity.
  - destruct ks as [|k ks]; [discriminate|].
    injection Hlen as Hlen. specialize (IH ks Hlen).
    cbn [zip_with map]. rewrite IH, chunk_insert.
    destruct (bool_decide _); reflexivity.
Qed.

Lemma unshard_rows {A} (g : nat -> list A -> list A) (t : tensor A) (ps : list nat) :
  unshard (length t) (map (fun p => map (g p) t) ps)
  = map (fun row => concat (map (fun p => g p row) ps)) t.
Proof.
  unfold unshard. induction ps as [|p ps IH]; simpl.
  - induction t as [|row t IHt]; simpl; [reflexivity|]. rewrite IHt. reflexivity.
  - rewrite IH. clear IH.
    induction t as [|row t IHt]; simpl; [reflexivity|]. rewrite IHt. reflexivity.
Qed.

Lemma concat_chunks {A} (sp P : nat) (row : list A) :
  length row = P * sp ->
  concat (map (fun p => take sp (drop (p * sp) row)) (seq 0 P)) = row.
Proof.
  revert row. induction P as [|P IH]; intros row Hlen.
  - destruct row; [reflexivity|discriminate].
  - cbn [seq map concat]. rewrite drop_0.
    rewrite <- seq_shift, map_map.
    transitivity (take sp row ++ drop sp row); [|apply take_drop].
    f_equal.
    etransitivity; [|apply (IH (drop sp row)); rewrite length_drop; lia].
    f_equal. apply map_ext. intros p. rewrite drop_drop. reflexivity.
Qed.

Lemma unshard_chunks {A} (t : tensor A) (b sp P : nat) :
  has_shape t b (P * sp) ->
  unshard b (map (fun p => map (fun row => take sp (drop (p * sp) row)) t) (seq 0 P))
  = t.
Proof.
  intros [Hb Hrows]. subst b.
  rewrite (unshard_rows (fun p row => take sp (drop (p * sp) row))).
  induction Hrows as [|row t Hrow _ IH]; [reflexivity|].
  simpl. rewrite IH, concat_chunks by exact Hrow. reflexivity.
Qed.

Lemma exact_division (m P : nat) :
  0 < P -> m mod P = 0 -> m = P * (m / P).
Proof. intros HP Hmod. pose proof (Nat.div_mod_eq m P). lia. Qed.

Lemma block_within (m P p : nat) :
  0 < P -> m mod P = 0 -> p < P -> p * (m / P) + m / P <= m.
Proof.
  intros HP Hmod Hp. pose proof (exact_division m P HP Hmod) as Hm.
  assert (S p * (m / P) <= P * (m / P)) by (apply Nat.mul_le_mono_r; lia).
  lia.
Qed.

(** What the shard [p] computes is the block [p] of the array written
    at the cursor as a whole. *)
Lemma fn_on_shard {T} (ck cv key value : tensor T) (b m P p : nat) (cur : Z) :
  has_shape ck b m -> has_shape cv b m ->
  has_shape key b 1 -> has_shape value b 1 ->
  0 < b -> 0 < P -> m mod P = 0 -> p < P ->
  (Z.of_nat m < 2 ^ 31)%Z -> (0 <= cur < 2 ^ 31)%Z ->
  fn m P p (shard P p ck) (shard P p cv) key value cur
  = Ok (shard P p (zip_with (fun row k => <[Z.to_nat cur := k]> row) ck (concat key)),
        shard P p (zip_with (fun row k => <[Z.to_nat cur := k]> row) cv (concat value))).
Proof.
  intros Hck Hcv Hk Hv Hb HP Hmod Hp Hm Hcur.
  pose proof (block_within m P p HP Hmod Hp) as Hblock.
  pose proof (length_tokens key b Hk) as Hlk.
  pose proof (length_tokens value b Hv) as Hlv.
  rewrite (shard_chunks P p _ b m (has_shape_inserted ck _ b m _ Hck Hlk) Hb).
  rewrite (shard_chunks P p _ b m (has_shape_inserted cv _ b m _ Hcv Hlv) Hb).
  rewrite (chunks_inserted ck) by (destruct Hck; lia).
  rewrite (chunks_inserted cv) by (destruct Hcv; lia).
  rewrite <- (shard_chunks P p ck b m Hck Hb).
  rewrite <- (shard_chunks P p cv b m Hcv Hb).
  unfold fn.
  rewrite (has_shape_shape1 _ _ _ Hk Hb), (has_shape_shape1 _ _ _ Hv Hb).
  cbn [Nat.eqb andb]. unfold py_floordiv.
  rewrite (proj2 (Nat.eqb_neq P 0)) by lia. cbn [bind].
  set (sp := m / P) in *.
  assert (Hmul : mul32 (Z.of_nat p) (Z.of_nat sp) = Z.of_nat (p * sp)).
  { unfold mul32. rewrite <- Nat2Z.inj_mul. apply int32_wrap_id. lia. }
  rewrite Hmul.
  assert (Hsub : sub32 cur (Z.of_nat (p * sp)) = (cur - Z.of_nat (p * sp))%Z).
  { unfold sub32. apply int32_wrap_id. lia. }
  rewrite Hsub.
  destruct ((0 <=? cur - Z.of_nat (p * sp))%Z
            && (cur - Z.of_nat (p * sp) <? Z.of_nat sp)%Z) eqn:Hcond.
  - apply andb_true_iff in Hcond as [H1 H2].
    apply Z.leb_le in H1. apply Z.ltb_lt in H2.
    rewrite bool_decide_eq_true_2 by lia.
    rewrite (last_position_tokens key b Hk), (last_position_tokens value b Hv).
    cbn [bind].
    assert (Hls : forall t : tensor T, has_shape t b m -> length (shard P p t) = b).
    { intros t [Ht _]. unfold shard. rewrite length_map. exact Ht. }
    rewrite at_set_ok by (rewrite (Hls ck Hck); lia). cbn [bind].
    rewrite at_set_ok by (rewrite (Hls cv Hcv); lia). cbn [bind].
    replace (Z.to_nat (cur - Z.of_nat (p * sp))) with (Z.to_nat cur - p * sp) by lia.
    reflexivity.
  - apply andb_false_iff in Hcond.
    rewrite bool_decide_eq_false_2; [reflexivity|].
    intros [H1 H2]. destruct Hcond as [Hc|Hc].
    + apply Z.leb_gt in Hc. lia.
    + apply Z.ltb_ge in Hc. lia.
Qed.

(** The sharded write, put together again, is one write at the cursor. *)
Lemma shard_map_fn_writes_cursor {T} (ck cv key value : tensor T)
    (b m P : nat) (cur : Z) :
  has_shape ck b m -> has_shape cv b m ->
  has_shape key b 1 -> has_shape value b 1 ->
  0 < b -> 0 < P -> m mod P = 0 ->
  (Z.of_nat m < 2 ^ 31)%Z -> (0 <= cur < 2 ^ 31)%Z ->
  shard_map_fn m P ck cv key value cur
  = Ok (zip_with (fun row k => <[Z.to_nat cur := k]> row) ck (concat key),
        zip_with (fun row k => <[Z.to_nat cur := k]> row) cv (concat value)).
Proof.
  intros Hck Hcv Hk Hv Hb HP Hmod Hm Hcur.
  pose proof (length_tokens key b Hk) as Hlk.
  pose proof (length_tokens value b Hv) as Hlv.
  unfold shard_map_fn, py_mod.
  rewrite (has_shape_shape1 _ _ _ Hck Hb).
  rewrite (proj2 (Nat.eqb_neq P 0)) by lia. cbn [bind].
  rewrite Hmod. cbn [Nat.eqb negb].
  set (K := zip_with (fun row k => <[Z.to_nat cur := k]> row) ck (concat key)).
  set (V := zip_with (fun row k => <[Z.to_nat cur := k]> row) cv (concat value)).
  rewrite (mapM_ok _ (fun p => (shard P p K, shard P p V))).
  - cbn [bind]. rewrite !map_map. cbn [fst snd].
    rewrite (has_shape_shape0 _ _ _ Hck), (has_shape_shape0 _ _ _ Hcv).
    assert (HK : has_shape K b (P * (m / P))).
    { rewrite <- exact_division by assumption.
      apply has_shape_inserted; assumption. }
    assert (HV : has_shape V b (P * (m / P))).
    { rewrite <- exact_division by assumption.
      apply has_shape_inserted; assumption. }
    assert (Hsh : forall t : tensor T, has_shape t b (P * (m / P)) ->
              map (fun p => shard P p t) (seq 0 P)
              = map (fun p => map (fun row => take (m / P) (drop (p * (m / P)) row)) t)
                  (seq 0 P)).
    { intros t Ht. apply map_ext. intros p.
      rewrite (shard_chunks P p t b _ Ht Hb).
      rewrite <- exact_division by assumption. reflexivity. }
    rewrite (Hsh K HK), (Hsh V HV).
    rewrite (unshard_chunks K b _ P HK), (unshard_chunks V b _ P HV).
    reflexivity.
  - apply Forall_forall. intros p Hp. apply elem_of_seq in Hp.
    apply (fn_on_shard ck cv key value b m P p cur); try assumption. lia.
Qed.

(** *** An append, on either path *)

Lemma take_inserted {T} (t : tensor T) (ks : list T) (c i : nat) :
  length t = length ks -> i <= c ->
  map (take i) (zip_with (fun row k => <[c := k]> row) t ks) = map (take i) t.
Proof.
  revert ks. induction t as [|row t IH]; intros ks Hlen Hi.
  - reflexivity.
  - destruct ks as [|k ks]; [discriminate|]. injection Hlen as Hlen.
    cbn [zip_with map]. rewrite take_insert_ge by exact Hi.
    rewrite IH by assumption. reflexivity.
Qed.

Lemma sharded_path_inv (cfg : Config) (n : nat) :
  sharded_path cfg n = true ->
  n = 1 /\ use_sharded_kv_caching cfg = true /\ quantize_kv_cache cfg = false.
Proof.
  unfold sharded_path. intros H.
  apply andb_true_iff in H as [H Hq]. apply andb_true_iff in H as [Hn Hs].
  apply Nat.eqb_eq in Hn. apply negb_true_iff in Hq. auto.
Qed.

Section Append.
Context {T Q8 : Type}.
Context (zeroT : T) (quantize_slab : T -> Q8) (materialize_slab : Q8 -> T).

(** The sharded path: one write at the cursor, the mask passed on. *)
Lemma append_sharded (cfg : Config) (c : CacheVars) (key value : tensor T)
    (n : nat) (attention_mask : option mask) (b m : nat) :
  sharded_path cfg n = true ->
  cache_shape materialize_slab c b m ->
  has_shape key b 1 -> has_shape value b 1 ->
  0 < mesh_sp cfg -> m mod mesh_sp cfg = 0 ->
  (0 <= cache_index c < 2 ^ 31)%Z ->
  let k := zip_with (fun row t => <[Z.to_nat (cache_index c) := t]> row)
             (array_of materialize_slab (cached_key c)) (concat key) in
  let v := zip_with (fun row t => <[Z.to_nat (cache_index c) := t]> row)
             (array_of materialize_slab (cached_value c)) (concat value) in
  _concatenate_to_cache zeroT quantize_slab materialize_slab cfg (Some c)
    key value n attention_mask
  = Ok ({| cached_key := store quantize_slab cfg k;
           cached_value := store quantize_slab cfg v;
           cache_index := add32 (cache_index c) (Z.of_nat n) |},
        (k, v, attention_mask)).
Proof.
  intros Hpath (Hck & Hcv & Hb & Hm) Hk Hv HP Hmod Hcur k v.
  unfold _concatenate_to_cache. rewrite Hpath.
  rewrite (has_shape_shape1 _ _ _ Hck Hb).
  rewrite (shard_map_fn_writes_cursor _ _ key value b m _ _
             Hck Hcv Hk Hv Hb HP Hmod Hm Hcur).
  reflexivity.
Qed.

(** Every well-shaped append of at most [m] positions goes through,
    whether it fits or not. *)
Lemma append_result (cfg : Config) (c : CacheVars) (key value : tensor T)
    (n : nat) (attention_mask : option mask) (b m : nat) :
  cache_shape materialize_slab c b m ->
  request_shape key value attention_mask b n m ->
  mesh_ok cfg m -> n <= m ->
  (0 <= cache_index c)%Z -> (cache_index c + Z.of_nat n < 2 ^ 31)%Z ->
  exists k v mask',
    _concatenate_to_cache zeroT quantize_slab materialize_slab cfg (Some c)
      key value n attention_mask
    = Ok ({| cached_key := store quantize_slab cfg k;
             cached_value := store quantize_slab cfg v;
             cache_index := (cache_index c + Z.of_nat n)%Z |},
          (k, v, mask'))
    /\ has_shape k b m /\ has_shape v b m
    /\ (forall i, (Z.of_nat i <= cache_index c)%Z -> i + n <= m ->
          map (take i) k = map (take i) (array_of materialize_slab (cached_key c))
          /\ map (take i) v = map (take i) (array_of materialize_slab (cached_value c)))
    /\ (if sharded_path cfg n then mask' = attention_mask
        else mask' = padded b m (cache_index c) n attention_mask
             /\ k = zip_with (fun row u =>
                                update_slice row u (clamp_index (cache_index c) m n))
                      (array_of materialize_slab (cached_key c)) key
             /\ v = zip_with (fun row u =>
                                update_slice row u (clamp_index (cache_index c) m n))
                      (array_of materialize_slab (cached_value c)) value).
Proof.
  intros Hc Hreq Hmesh Hn H0 H31.
  assert (Hadd : add32 (cache_index c) (Z.of_nat n) = (cache_index c + Z.of_nat n)%Z).
  { unfold add32. apply int32_wrap_id. lia. }
  pose proof Hc as (Hck & Hcv & Hb & Hm).
  pose proof Hreq as (Hk & Hv & Hmask).
  destruct (sharded_path cfg n) eqn:Hpath.
  - destruct (sharded_path_inv cfg n Hpath) as (-> & Hs & Hq).
    destruct (Hmesh Hs) as [HP Hmod].
    rewrite (append_sharded cfg c key value 1 attention_mask b m
               Hpath Hc Hk Hv HP Hmod) by lia.
    rewrite Hadd.
    pose proof (length_tokens key b Hk) as Hlk.
    pose proof (length_tokens value b Hv) as Hlv.
    eexists _, _, _. split; [reflexivity|].
    split; [apply has_shape_inserted; assumption|].
    split; [apply has_shape_inserted; assumption|].
    split; [|reflexivity].
    intros i Hi _. split; apply take_inserted; try lia.
    + destruct Hck; lia.
    + destruct Hcv; lia.
  - rewrite (append_unsharded zeroT quantize_slab materialize_slab cfg c key value
               n attention_mask b m Hpath Hc Hreq Hn).
    rewrite Hadd.
    pose proof (clamp_index_bound (cache_index c) m n Hn) as Hs.
    eexists _, _, _. split; [reflexivity|].
    split; [apply (has_shape_updated _ _ b m n); assumption|].
    split; [apply (has_shape_updated _ _ b m n); assumption|].
    split; [|auto].
    intros i Hi Him.
    assert (His : i <= clamp_index (cache_index c) m n) by (unfold clamp_index; lia).
    split.
    + rewrite (take_updated _ key b m) by (assumption || lia).
      rewrite take_ge; [reflexivity|]. destruct Hck, Hk; lia.
    + rewrite (take_updated _ value b m) by (assumption || lia).
      rewrite take_ge; [reflexivity|]. destruct Hcv, Hv; lia.
Qed.

End Append.

Section Session.
Context {T Q8 : Type}.
Context (zeroT : T) (quantize_slab : T -> Q8) (materialize_slab : Q8 -> T).

Lemma cache_shape_stored (cfg : Config) (k v : tensor T) (i : Z) (b m : nat) :
  has_shape k b m -> has_shape v b m -> 0 < b -> (Z.of_nat m < 2 ^ 31)%Z ->
  cache_shape materialize_slab
    {| cached_key := store quantize_slab cfg k;
       cached_value := store quantize_slab cfg v;
       cache_index := i |} b m.
Proof.
  intros Hk Hv Hb Hm. unfold cache_shape. cbn [cached_key cached_value].
  split; [apply array_of_store_shape; exact Hk|].
  split; [apply array_of_store_shape; exact Hv|]. split; assumption.
Qed.


End Session.

(** *** Capacity *)

(** C1, as stated, fails: appending one position to the full cache of
    two positions raises nothing; the start is clamped, position 1 is
    overwritten and the cursor moves to 3, beyond the capacity. *)
Lemma append_to_full_cache_is_not_refused :
  _concatenate_to_cache 0 id id plain_config (Some full_cache) [[7]] [[8]] 1 None
  = Ok ({| cached_key := Plain [[1; 7]]; cached_value := Plain [[3; 8]];
           cache_index := 3 |},
        ([[1; 7]], [[3; 8]], Some [[[[true; true]]]]))
  /\ ~ capacity_checked 0 id id plain_config full_cache [[7]] [[8]] 1 None.
Proof.
  split; [vm_compute; reflexivity|].
  intros Hc. destruct Hc as [e He]; [vm_compute; reflexivity|].
  vm_compute in He. discriminate He.
Qed.

Section Capacity.
Context {T Q8 : Type}.
Context (zeroT : T) (quantize_slab : T -> Q8) (materialize_slab : Q8 -> T).

(** C1, amended: [_concatenate_to_cache] checks no capacity. A
    well-shaped append of [n <= max_length] positions returns and moves
    the cursor to [cursor + n], whatever the cursor was; the cursor stays
    within [0, max_length] when the append fits, and ends above
    [max_length] when it does not, in which case the non-sharded path
    has written the new positions over the last [n] of the cache. *)
Theorem append_checks_no_capacity (cfg : Config) (c : CacheVars)
    (key value : tensor T) (n : nat) (attention_mask : option mask) (b m : nat) :
  cache_shape materialize_slab c b m ->
  request_shape key value attention_mask b n m ->
  mesh_ok cfg m -> n <= m ->
  (0 <= write_cursor c)%Z -> (write_cursor c + Z.of_nat n < 2 ^ 31)%Z ->
  exists c' out,
    _concatenate_to_cache zeroT quantize_slab materialize_slab cfg (Some c)
      key value n attention_mask = Ok (c', out)
    /\ write_cursor c' = (write_cursor c + Z.of_nat n)%Z
    /\ cache_shape materialize_slab c' b m
    /\ ((write_cursor c + Z.of_nat n <= Z.of_nat m)%Z ->
        (0 <= write_cursor c' <= Z.of_nat m)%Z)
    /\ ((Z.of_nat m < write_cursor c + Z.of_nat n)%Z ->
        (Z.of_nat m < write_cursor c')%Z
        /\ (sharded_path cfg n = false ->
            out.1.1 = zip_with (fun row u => update_slice row u (m - n))
                        (array_of materialize_slab (cached_key c)) key)).
Proof.
  intros Hc Hreq Hmesh Hn H0 H31. unfold write_cursor in *.
  pose proof Hc as (_ & _ & Hb & Hm).
  destruct (append_result zeroT quantize_slab materialize_slab cfg c key value
              n attention_mask b m Hc Hreq Hmesh Hn H0 H31)
    as (k & v & mask' & Heq & Hk & Hv & _ & Hpath).
  eexists _, _. split; [exact Heq|]. cbn [cache_index].
  split; [reflexivity|].
  split; [apply cache_shape_stored; assumption|].
  split; [lia|].
  intros Hfull. split; [lia|].
  intros Hunsharded. rewrite Hunsharded in Hpath.
  destruct Hpath as (_ & -> & _). cbn [fst].
  rewrite (clamp_index_full _ m n Hn Hfull). reflexivity.
Qed.

End Capacity.

Lemma append_checks_no_capacity_witness :
  cache_shape id full_cache 1 2
  /\ request_shape [[7]] [[8]] None 1 1 2
  /\ exists c' out,
       _concatenate_to_cache 0 id id plain_config (Some full_cache) [[7]] [[8]] 1 None
       = Ok (c', out)
       /\ write_cursor c' = 3%Z
       /\ out.1.1 = [[1; 7]].
Proof.
  assert (Hc : cache_shape id full_cache 1 2).
  { unfold cache_shape, has_shape. simpl. repeat split; repeat constructor. }
  assert (Hreq : request_shape [[7]] [[8]] None 1 1 2).
  { unfold request_shape, has_shape. simpl. repeat split; repeat constructor. }
  assert (Hmesh : mesh_ok plain_config 2) by (intros Hs; discriminate Hs).
  split; [exact Hc|]. split; [exact Hreq|].
  destruct (append_checks_no_capacity 0 id id plain_config full_cache [[7]] [[8]]
              1 None 1 2 Hc Hreq Hmesh)
    as (c' & out & Hcall & Hcur & _ & _ & Hfull);
    [lia | simpl; lia | simpl; lia |].
  exists c', out. split; [exact Hcall|]. split; [exact Hcur|].
  destruct Hfull as [_ Hw]; [simpl; lia|].
  rewrite (Hw eq_refl). reflexivity.
Defined.

(** *** The sharded single-token append *)

Section Sharded.
Context {T Q8 : Type}.
Context (zeroT : T) (quantize_slab : T -> Q8) (materialize_slab : Q8 -> T).

(** C3: on the sharded path the call returns, and with the [P] shards
    holding blocks of [sp_size = max_length / P] positions, the block of
    a shard whose range does not hold the cursor is, for keys and for
    values, what it was before the call; the block of the shard whose
    range holds the cursor is the old block with the new token written
    at the local offset [cursor - p * sp_size]. *)
Theorem sharded_append_writes_owning_shard_only (cfg : Config) (c : CacheVars)
    (key value : tensor T) (attention_mask : option mask) (b m : nat) :
  sharded_path cfg 1 = true ->
  cache_shape materialize_slab c b m ->
  has_shape key b 1 -> has_shape value b 1 ->
  0 < mesh_sp cfg -> m mod mesh_sp cfg = 0 ->
  (0 <= write_cursor c < 2 ^ 31)%Z ->
  let P := mesh_sp cfg in
  let sp_size := m / P in
  let cursor := Z.to_nat (write_cursor c) in
  let old_key := array_of materialize_slab (cached_key c) in
  let old_value := array_of materialize_slab (cached_value c) in
  exists c' out,
    _concatenate_to_cache zeroT quantize_slab materialize_slab cfg (Some c)
      key value 1 attention_mask = Ok (c', out)
    /\ array_of materialize_slab (cached_key c') = out.1.1
    /\ array_of materialize_slab (cached_value c') = out.1.2
    /\ forall p, p < P ->
         if bool_decide (p * sp_size <= cursor < p * sp_size + sp_size)
         then shard P p out.1.1
              = zip_with (fun row t => <[cursor - p * sp_size := t]> row)
                  (shard P p old_key) (concat key)
              /\ shard P p out.1.2
                 = zip_with (fun row t => <[cursor - p * sp_size := t]> row)
                     (shard P p old_value) (concat value)
         else shard P p out.1.1 = shard P p old_key
              /\ shard P p out.1.2 = shard P p old_value.
Proof.
  intros Hpath Hc Hk Hv HP Hmod Hcur P sp_size cursor old_key old_value.
  unfold write_cursor in *.
  pose proof Hc as (Hck & Hcv & Hb & Hm).
  destruct (sharded_path_inv cfg 1 Hpath) as (_ & _ & Hq).
  pose proof (length_tokens key b Hk) as Hlk.
  pose proof (length_tokens value b Hv) as Hlv.
  rewrite (append_sharded zeroT quantize_slab materialize_slab cfg c key value 1
             attention_mask b m Hpath Hc Hk Hv HP Hmod Hcur).
  eexists _, _. split; [reflexivity|].
  cbn [cached_key cached_value fst snd].
  rewrite !array_of_store_plain by exact Hq.
  split; [reflexivity|]. split; [reflexivity|].
  intros p Hp. fold old_key old_value cursor.
  rewrite (shard_chunks P p _ b m (has_shape_inserted old_key _ b m _ Hck Hlk) Hb).
  rewrite (shard_chunks P p _ b m (has_shape_inserted old_value _ b m _ Hcv Hlv) Hb).
  assert (Hlok : length old_key = length (concat key))
    by (rewrite Hlk; exact (proj1 Hck)).
  assert (Hlov : length old_value = length (concat value))
    by (rewrite Hlv; exact (proj1 Hcv)).
  rewrite (chunks_inserted old_key _ _ _ _ Hlok).
  rewrite (chunks_inserted old_value _ _ _ _ Hlov).
  rewrite <- (shard_chunks P p old_key b m Hck Hb).
  rewrite <- (shard_chunks P p old_value b m Hcv Hb).
  fold sp_size. destruct (bool_decide _); split; reflexivity.
Qed.

(** C10: on the sharded path the call returns the attention mask it was
    given, whatever that is; no pad mask is and-ed into it. *)
Theorem sharded_append_returns_mask_unchanged (cfg : Config) (c : CacheVars)
    (key value : tensor T) (n : nat) (attention_mask : option mask) (b m : nat) :
  sharded_path cfg n = true ->
  cache_shape materialize_slab c b m ->
  has_shape key b n -> has_shape value b n ->
  0 < mesh_sp cfg -> m mod mesh_sp cfg = 0 ->
  (0 <= write_cursor c < 2 ^ 31)%Z ->
  exists c' k v,
    _concatenate_to_cache zeroT quantize_slab materialize_slab cfg (Some c)
      key value n attention_mask = Ok (c', (k, v, attention_mask)).
Proof.
  intros Hpath Hc Hk Hv HP Hmod Hcur.
  destruct (sharded_path_inv cfg n Hpath) as (Hn & _ & _). subst n.
  rewrite (append_sharded zeroT quantize_slab materialize_slab cfg c key value 1
             attention_mask b m Hpath Hc Hk Hv HP Hmod Hcur).
  eexists _, _, _. reflexivity.
Qed.

End Sharded.

Lemma cache16_shape : cache_shape id cache16 1 16.
Proof.
  unfold cache_shape, has_shape. simpl.
  split; [split; [reflexivity | repeat constructor]|].
  split; [split; [reflexivity | repeat constructor]|].
  split; [lia | reflexivity].
Qed.

(** Four shards over sixteen positions, the cursor at 5: the shard of
    [[4, 8)] writes at its offset 1 and the other three keep their
    blocks. *)
Lemma sharded_append_writes_owning_shard_only_witness :
  exists c' out,
    _concatenate_to_cache 0 id id sharded_config (Some cache16) [[7]] [[8]] 1 None
    = Ok (c', out)
    /\ shard 4 0 out.1.1 = [[100; 101; 102; 103]]
    /\ shard 4 1 out.1.1 = [<[1 := 7]> [104; 105; 106; 107]]
    /\ shard 4 2 out.1.1 = [[108; 109; 110; 111]]
    /\ shard 4 3 out.1.1 = [[112; 113; 114; 115]].
Proof.
  destruct (sharded_append_writes_owning_shard_only 0 id id sharded_config cache16
              [[7]] [[8]] None 1 16 eq_refl cache16_shape)
    as (c' & out & Hcall & _ & _ & Hshards).
  - split; [reflexivity | repeat constructor].
  - split; [reflexivity | repeat constructor].
  - simpl. lia.
  - reflexivity.
  - simpl. lia.
  - exists c', out. split; [exact Hcall|].
    assert (Hlt : forall p, p < 4 -> p < mesh_sp sharded_config)
      by (intros p Hp; exact Hp).
    pose proof (Hshards 0 (Hlt 0 ltac:(lia))) as [H0 _].
    pose proof (Hshards 1 (Hlt 1 ltac:(lia))) as [H1 _].
    pose proof (Hshards 2 (Hlt 2 ltac:(lia))) as [H2 _].
    pose proof (Hshards 3 (Hlt 3 ltac:(lia))) as [H3 _].
    split; [exact H0|]. split; [exact H1|]. split; [exact H2 | exact H3].
Defined.

(** A mask of any shape comes back as it is. *)
Lemma sharded_append_returns_mask_unchanged_witness :
  exists c' k v,
    _concatenate_to_cache 0 id id sharded_config (Some cache16) [[7]] [[8]] 1
      (Some [[[[true; false]]]])
    = Ok (c', (k, v, Some [[[[true; false]]]])).
Proof.
  apply (sharded_append_returns_mask_unchanged 0 id id sharded_config cache16
           [[7]] [[8]] 1 (Some [[[[true; false]]]]) 1 16 eq_refl cache16_shape).
  - split; [reflexivity | repeat constructor].
  - split; [reflexivity | repeat constructor].
  - simpl. lia.
  - reflexivity.
  - simpl. lia.
Defined.

(** *** A decoding session *)


Section Monotone.
Context {T Q8 : Type}.
Context (zeroT : T) (quantize_slab : T -> Q8) (materialize_slab : Q8 -> T).


End Monotone.




End CacheSpec.

(** ** More of the dispatcher *)

Module DispatchSpec.
Import Flash Dispatch.

(** X1: a dispatcher created for a backend without naming a platform
    is always accepted, with the platform that backend defaults to;
    created without a backend either, it is accepted exactly when the
    JAX platform string is the value of a [Backend] member, and raises
    [ValueError] otherwise. *)
Theorem default_platform_is_always_valid {scale : Type} (env : Env)
    (bq bk : nat) (sc : option scale) :
  (forall b : Backend,
     create_flash_attention env (Some (inl b)) None bq bk sc
     = Ok {| config := {| blocksize_q := bq; blocksize_k := bk;
                          softmax_scale := sc; backend := Some b;
                          platform := Some (_default_platform b) |} |})
  /\ create_flash_attention env None None bq bk sc
     = match Backend_of_string (jax_platform env) with
       | Ok b => Ok {| config := {| blocksize_q := bq; blocksize_k := bk;
                                    softmax_scale := sc; backend := Some b;
                                    platform := Some (_default_platform b) |} |}
       | Raise _ => Raise ValueError
       end.
Proof.
  split.
  - intros b. destruct b; reflexivity.
  - unfold create_flash_attention, __post_init__. cbn [bind backend platform].
    unfold Backend_of_string.
    repeat (destruct (String.eqb _ _); [reflexivity|]). reflexivity.
Qed.

(** X2: the enum constructors invert the member values: a string is
    accepted as a backend (platform) exactly when it is the value of a
    member; so the factory called with strings does what it does with
    the members, and raises [ValueError] on any other string before it
    looks at anything else. *)
Theorem enum_strings_round_trip {scale : Type} (env : Env)
    (bq bk : nat) (sc : option scale) :
  (forall b, Backend_of_string (Backend_value b) = Ok b)
  /\ (forall p, Platform_of_string (Platform_value p) = Ok p)
  /\ (forall s b, Backend_of_string s = Ok b <-> s = Backend_value b)
  /\ (forall s p, Platform_of_string s = Ok p <-> s = Platform_value p)
  /\ (forall b p,
        create_flash_attention env (Some (inr (Backend_value b)))
          (Some (inr (Platform_value p))) bq bk sc
        = create_flash_attention env (Some (inl b)) (Some (inl p)) bq bk sc)
  /\ (forall s p, (forall b, s <> Backend_value b) ->
        create_flash_attention env (Some (inr s)) p bq bk sc = Raise ValueError).
Proof.
  assert (Hb : forall s b, Backend_of_string s = Ok b <-> s = Backend_value b).
  { intros s b. split.
    - unfold Backend_of_string.
      destruct (String.eqb s "gpu") eqn:E1;
        [apply String.eqb_eq in E1; intros [= <-]; exact E1|].
      destruct (String.eqb s "tpu") eqn:E2;
        [apply String.eqb_eq in E2; intros [= <-]; exact E2|].
      destruct (String.eqb s "cpu") eqn:E3;
        [apply String.eqb_eq in E3; intros [= <-]; exact E3|].
      discriminate.
    - intros ->. destruct b; reflexivity. }
  assert (Hp : forall s p, Platform_of_string s = Ok p <-> s = Platform_value p).
  { intros s p. split.
    - unfold Platform_of_string.
      destruct (String.eqb s "triton") eqn:E1;
        [apply String.eqb_eq in E1; intros [= <-]; exact E1|].
      destruct (String.eqb s "pallas") eqn:E2;
        [apply String.eqb_eq in E2; intros [= <-]; exact E2|].
      destruct (String.eqb s "jax") eqn:E3;
        [apply String.eqb_eq in E3; intros [= <-]; exact E3|].
      discriminate.
    - intros ->. destruct p; reflexivity. }
  split; [intros b; apply Hb; reflexivity|].
  split; [intros p; apply Hp; reflexivity|].
  split; [exact Hb|]. split; [exact Hp|]. split.
  - intros b p. destruct b, p; reflexivity.
  - intros s p Hs. unfold create_flash_attention.
    destruct (Backend_of_string s) as [b|e] eqn:E.
    + apply Hb in E. destruct (Hs b E).
    + unfold Backend_of_string in E.
      repeat (destruct (String.eqb _ _); [discriminate E|]).
      injection E as <-. reflexivity.
Qed.

(** X3: the compatibility check is what keeps kernels on their
    hardware. From a dispatcher that the constructor accepted, a call
    that reaches a kernel written for GPU or for TPU finds that very
    backend in the configuration. *)
Theorem accepted_dispatcher_calls_kernels_of_its_backend
    {scale H B : Type} (env : Env) (c : AttentionConfig scale)
    (self : FlashAttention scale) (query key value : list H)
    (bias : option (list B)) (call : kernel_call scale H B) (hw : Backend) :
  __init__ c = Ok self ->
  __call__ env self query key value bias = Ok call ->
  kernel_hardware call = Some hw ->
  backend (config self) = Some hw.
Proof.
  unfold __init__, _validate_config. intros Hinit Hcall Hhw.
  destruct (bool_decide _) eqn:Hvalid; [|discriminate Hinit].
  injection Hinit as <-. cbn [config] in *.
  apply bool_decide_eq_true_1 in Hvalid.
  unfold __call__ in Hcall.
  destruct (py_mod _ _) as [m|]; [|discriminate Hcall]. cbn [bind] in Hcall.
  destruct (negb _); [discriminate Hcall|].
  destruct (_handle_bias _ _ _) as [bias'|]; [|discriminate Hcall].
  cbn [bind] in Hcall.
  unfold _compute_triton, _compute_pallas, _compute_jax in Hcall.
  cbn [config] in Hcall.
  destruct c as [bq bk sc cb cp]. cbn [backend platform blocksize_q blocksize_k
    softmax_scale] in *.
  unfold valid_combinations in Hvalid.
  repeat (apply elem_of_cons in Hvalid as [Hvalid|Hvalid];
          [injection Hvalid as -> ->|]);
    [.. | apply elem_of_nil in Hvalid; destruct Hvalid];
    simpl in Hcall;
    repeat match type of Hcall with
           | context [py_floordiv ?a ?b] =>
               destruct (py_floordiv a b); simpl in Hcall; [|discriminate Hcall]
           | context [if ?x then _ else _] => destruct x; simpl in Hcall
           end;
    injection Hcall as <-; simpl in Hhw; congruence.
Qed.

Lemma accepted_dispatcher_calls_kernels_of_its_backend_witness :
  let env := {| jax_platform := "tpu"; FORCE_MHA := "false" |} in
  let c := {| blocksize_q := 128; blocksize_k := 128; softmax_scale := @None Q;
              backend := Some TPU; platform := Some PALLAS |} in
  exists call,
    __call__ env {| config := c |} (seq 0 4) (seq 0 2) (seq 0 2) (@None (list nat))
    = Ok call
    /\ kernel_hardware call = Some TPU
    /\ backend c = Some TPU.
Proof.
  intros env c.
  eexists. split; [reflexivity|]. split; [reflexivity|].
  exact (accepted_dispatcher_calls_kernels_of_its_backend env c {| config := c |}
           (seq 0 4) (seq 0 2) (seq 0 2) (@None (list nat)) _ TPU
           eq_refl eq_refl eq_refl).
Defined.

(** X4: a call never touches the query, and the bias it hands to the
    kernel is absent exactly when none was given and otherwise has one
    slice for every query head. A bias whose head count is none of the
    query's, the key's and one makes the call raise [ValueError]. *)
Theorem call_hands_over_query_and_full_bias
    {scale H B : Type} (env : Env) (self : FlashAttention scale)
    (query key value : list H) (bias : option (list B)) :
  (forall call, __call__ env self query key value bias = Ok call ->
     kernel_query call = query
     /\ (kernel_bias call = None <-> bias = None)
     /\ (forall b', kernel_bias call = Some b' -> length b' = length query))
  /\ (forall b, bias = Some b -> 0 < length key ->
        length query mod length key = 0 ->
        length b <> length query -> length b <> length key -> length b <> 1 ->
        __call__ env self query key value bias = Raise ValueError).
Proof.
  split.
  - intros call Hcall. unfold __call__ in Hcall.
    unfold py_mod in Hcall.
    destruct (length key =? 0) eqn:Hz; [discriminate Hcall|].
    cbn [bind] in Hcall.
    destruct (length query mod length key =? 0) eqn:Hmod;
      [|discriminate Hcall].
    cbn [negb] in Hcall.
    apply Nat.eqb_eq in Hmod. apply Nat.eqb_neq in Hz.
    assert (Hbias : exists bias', _handle_bias bias (length query) (length key)
                                  = Ok bias'
              /\ (bias' = None <-> bias = None)
              /\ (forall b', bias' = Some b' -> length b' = length query)).
    { unfold _handle_bias. destruct bias as [b|].
      - destruct (length b =? length query) eqn:E1.
        + apply Nat.eqb_eq in E1. eexists. split; [reflexivity|].
          split; [split; discriminate|]. intros b' [= <-]. exact E1.
        + destruct ((length b =? length key) || (length b =? 1)) eqn:E2.
          * unfold py_floordiv.
            assert (Hb0 : length b <> 0).
            { apply orb_true_iff in E2 as [E2|E2]; apply Nat.eqb_eq in E2; lia. }
            rewrite (proj2 (Nat.eqb_neq _ _) Hb0). cbn [bind].
            eexists. split; [reflexivity|].
            split; [split; discriminate|]. intros b' [= <-].
            rewrite FlashSpec.einops_repeat_heads_length.
            apply orb_true_iff in E2 as [E2|E2]; apply Nat.eqb_eq in E2;
              rewrite E2.
            -- pose proof (Nat.div_mod_eq (length query) (length key)). lia.
            -- rewrite Nat.div_1_r. lia.
          * exfalso. unfold _handle_bias in Hcall.
            rewrite E1, E2 in Hcall. discriminate Hcall.
      - eexists. split; [reflexivity|]. split; [tauto|]. discriminate. }
    destruct Hbias as (bias' & Hb & Hnone & Hlen).
    rewrite Hb in Hcall. cbn [bind] in Hcall.
    unfold _compute_triton, _compute_pallas, _compute_jax, py_floordiv in Hcall.
    rewrite (proj2 (Nat.eqb_neq _ _) Hz) in Hcall. cbn [bind] in Hcall.
    destruct (platform (config self)) as [[| |]|];
      repeat match type of Hcall with
             | context [if ?x then _ else _] => destruct x
             end;
      simpl in Hcall; injection Hcall as <-; simpl; auto.
  - intros b -> Hkey Hmod H1 H2 H3. unfold __call__, py_mod.
    rewrite (proj2 (Nat.eqb_neq (length key) 0)) by lia. cbn [bind].
    rewrite Hmod. cbn [Nat.eqb negb]. unfold _handle_bias.
    rewrite (proj2 (Nat.eqb_neq _ _) H1), (proj2 (Nat.eqb_neq _ _) H2),
      (proj2 (Nat.eqb_neq _ _) H3). reflexivity.
Qed.

Lemma call_hands_over_query_and_full_bias_witness :
  let env := {| jax_platform := "cpu"; FORCE_MHA := "false" |} in
  let self := {| config := {| blocksize_q := 128; blocksize_k := 128;
                              softmax_scale := @None Q;
                              backend := Some CPU; platform := Some JAX |} |} in
  (exists call,
     __call__ env self (seq 0 4) (seq 0 2) (seq 0 2) (Some [7]) = Ok call
     /\ kernel_bias call = Some [7; 7; 7; 7])
  /\ __call__ env self (seq 0 4) (seq 0 2) (seq 0 2) (Some [7; 8; 9])
     = Raise ValueError.
Proof.
  intros env self.
  destruct (call_hands_over_query_and_full_bias env self (seq 0 4) (seq 0 2)
              (seq 0 2) (Some [7; 8; 9])) as [_ Hbad].
  split.
  - eexists. split; reflexivity.
  - apply (Hbad [7; 8; 9]); simpl; (reflexivity || lia).
Defined.

End DispatchSpec.

(** ** Repeating heads *)

Module HeadsSpec.
Import Heads.

Lemma lookup_replicate_app {X} (n : nat) (h : X) (l : list X) (i : nat) :
  (replicate n h ++ l) !! i = if decide (i < n) then Some h else l !! (i - n).
Proof.
  destruct (decide (i < n)) as [Hlt|Hge].
  - rewrite lookup_app_l by (rewrite length_replicate; exact Hlt).
    apply lookup_replicate_2. exact Hlt.
  - rewrite lookup_app_r by (rewrite length_replicate; lia).
    rewrite length_replicate. reflexivity.
Qed.

(** X5: grouped-query pairing. Repeating the key/value heads [r > 0]
    times, as the dispatcher and [repeat_key_value] do, puts at head [i]
    of the result the key/value head [i // r]: query head [i] reads
    key/value head [i // r]. *)
Theorem repeated_head_is_quotient {X} (x : list X) (r i : nat) :
  0 < r ->
  Flash.einops_repeat_heads x r !! i = x !! (i / r).
Proof.
  intros Hr. unfold Flash.einops_repeat_heads.
  revert i. induction x as [|h x IH]; intros i; cbn [flat_map].
  - rewrite !lookup_nil. reflexivity.
  - rewrite lookup_replicate_app. destruct (decide (i < r)) as [Hlt|Hge].
    + rewrite Nat.div_small by exact Hlt. reflexivity.
    + rewrite IH.
      replace i with ((i - r) + 1 * r) at 2 by lia.
      rewrite Nat.div_add by lia. rewrite Nat.add_1_r. reflexivity.
Qed.

Lemma repeated_head_is_quotient_witness :
  Flash.einops_repeat_heads [10; 11] 4 !! 5 = Some 11.
Proof.
  rewrite (repeated_head_is_quotient [10; 11] 4 5); [reflexivity | lia].
Defined.

(** The three array operations of [repeat_kv_bnsh] amount to the einops
    pattern. *)
Lemma repeat_kv_bnsh_flat {X} (x : list X) (n_rep : nat) :
  repeat_kv_bnsh x n_rep = Flash.einops_repeat_heads x n_rep.
Proof.
  unfold repeat_kv_bnsh, Flash.einops_repeat_heads, merge_axes, newaxis_after,
    jnp_repeat.
  destruct (n_rep =? 1) eqn:E.
  - apply Nat.eqb_eq in E. subst n_rep.
    induction x as [|h x IH]; [reflexivity|]. simpl. f_equal. exact IH.
  - induction x as [|h x IH]; [reflexivity|].
    cbn [map concat flat_map]. rewrite IH, app_nil_r. reflexivity.
Qed.

(** X6: [repeat_kv_bnsh], written with [newaxis], [jnp.repeat] and
    [reshape], repeats the heads exactly as the einops pattern
    ["b s h d -> b s (h r) d"] of the dispatcher does, for every number
    of repetitions (none at all included); [repeat_key_value] returns
    that repetition of the key and of the value. *)
Theorem repeat_kv_bnsh_is_einops_repeat {X} (key value : list X) (n_rep : nat) :
  repeat_kv_bnsh key n_rep = Flash.einops_repeat_heads key n_rep
  /\ repeat_key_value key value n_rep
     = (repeat_kv_bnsh key n_rep, repeat_kv_bnsh value n_rep).
Proof.
  split; [apply repeat_kv_bnsh_flat|].
  unfold repeat_key_value. rewrite !repeat_kv_bnsh_flat. reflexivity.
Qed.

(** X7: [repeat_kv] of the Phi model puts its new axis before the head
    axis, so it lays the heads out in rounds: head [i] of its result is
    the head [i mod n] of the [n] it was given, not the head [i // n_rep]
    that [repeat_kv_bnsh] puts there. The two agree when there is a
    single head. *)
Theorem phi_repeat_kv_tiles_heads {X} (x : list X) (n_rep i : nat) :
  i < n_rep * length x ->
  repeat_kv x n_rep !! i = x !! (i mod length x)
  /\ (length x = 1 -> repeat_kv x n_rep = repeat_kv_bnsh x n_rep).
Proof.
  intros Hi.
  assert (Htile : repeat_kv x n_rep = concat (replicate n_rep x)).
  { unfold repeat_kv, merge_axes, newaxis_before, jnp_repeat.
    destruct (n_rep =? 1) eqn:E.
    - apply Nat.eqb_eq in E. subst n_rep. simpl. rewrite app_nil_r. reflexivity.
    - cbn [flat_map]. rewrite app_nil_r. reflexivity. }
  split.
  - rewrite Htile. clear Htile. revert i Hi.
    induction n_rep as [|n IH]; intros i Hi; [lia|].
    cbn [replicate concat].
    destruct (decide (i < length x)) as [Hlt|Hge].
    + rewrite lookup_app_l by exact Hlt.
      rewrite Nat.mod_small by exact Hlt. reflexivity.
    + rewrite lookup_app_r by lia. rewrite IH by lia.
      replace i with ((i - length x) + 1 * length x) at 2 by lia.
      rewrite Nat.Div0.mod_add. reflexivity.
  - intros Hone. rewrite Htile.
    rewrite repeat_kv_bnsh_flat.
    destruct x as [|h [|? ?]]; try discriminate Hone.
    unfold Flash.einops_repeat_heads. cbn [flat_map]. rewrite app_nil_r.
    clear. induction n_rep as [|n IH]; [reflexivity|].
    cbn [replicate concat app]. rewrite IH. reflexivity.
Qed.

Lemma phi_repeat_kv_tiles_heads_witness :
  repeat_kv [10; 11] 2 !! 1 = Some 11
  /\ repeat_kv_bnsh [10; 11] 2 !! 1 = Some 10.
Proof.
  split; [|reflexivity].
  rewrite (proj1 (phi_repeat_kv_tiles_heads [10; 11] 2 1 ltac:(simpl; lia))).
  reflexivity.
Defined.

End HeadsSpec.

(** ** More of the cache *)

Module CacheMoreSpec.
Import Cache Decode CacheSpec.

Lemma zip_with_ext_shape {A B C} (f g : list A -> list B -> C)
    (t : tensor A) (u : tensor B) (b m n : nat) :
  has_shape t b m -> has_shape u b n ->
  (forall row r, length row = m -> length r = n -> f row r = g row r) ->
  zip_with f t u = zip_with g t u.
Proof.
  intros [_ Ht] [_ Hu] Hfg. revert u Hu.
  induction Ht as [|row t Hrow _ IH]; intros u Hu; [reflexivity|].
  destruct Hu as [|r u Hr Hu]; [reflexivity|]. cbn [zip_with].
  rewrite (Hfg row r Hrow Hr), (IH u Hu). reflexivity.
Qed.

(** One token written at [c] is a splice of one position. *)
Lemma inserted_is_spliced {T} (t key : tensor T) (b m c : nat) :
  has_shape t b m -> has_shape key b 1 -> c < m ->
  zip_with (fun row k => <[c := k]> row) t (concat key)
  = zip_with (splice c 1) t key.
Proof.
  intros [_ Ht] [_ Hk] Hc. revert key Hk.
  induction Ht as [|row t Hrow _ IH]; intros key Hk.
  - destruct (concat key), key; reflexivity.
  - destruct Hk as [|r key Hr Hk]; [reflexivity|].
    destruct r as [|k [|? ?]]; simpl in Hr; try lia.
    cbn [concat app zip_with]. rewrite (IH key Hk). f_equal.
    unfold splice. rewrite insert_take_drop by lia.
    replace (c + 1) with (S c) by lia. reflexivity.
Qed.

Lemma inserted_out_of_range {T} (t : tensor T) (ks : list T) (b m c : nat) :
  has_shape t b m -> length ks = b -> m <= c ->
  zip_with (fun row k => <[c := k]> row) t ks = t.
Proof.
  intros [Hb Ht] Hks Hc. subst b. revert ks Hks.
  induction Ht as [|row t Hrow _ IH]; intros ks Hks.
  - destruct ks; reflexivity.
  - destruct ks as [|k ks]; [discriminate Hks|]. injection Hks as Hks.
    cbn [zip_with]. rewrite list_insert_ge by lia. rewrite (IH ks Hks).
    reflexivity.
Qed.

Lemma mesh_ok_unsharded (cfg : Config) (m : nat) : mesh_ok (unsharded cfg) m.
Proof. intros Hs. discriminate Hs. Qed.

Lemma sharded_path_unsharded (cfg : Config) (n : nat) :
  sharded_path (unsharded cfg) n = false.
Proof. unfold sharded_path, unsharded. cbn. rewrite andb_false_r. reflexivity. Qed.

Lemma splice_lookup_window {A} (row u : list A) (cur n i : nat) {m : nat} :
  length row = m -> length u = n -> cur + n <= m -> i < n ->
  splice cur n row u !! (cur + i) = u !! i.
Proof.
  intros Hrow Hu Hfit Hi. unfold splice.
  rewrite lookup_app_r by (rewrite length_take; lia).
  rewrite length_take, Nat.min_l by lia.
  replace (cur + i - cur) with i by lia.
  apply lookup_app_l. lia.
Qed.

Lemma splice_lookup_outside {A} (row u : list A) (cur n i : nat) {m : nat} :
  length row = m -> length u = n -> cur + n <= m ->
  i < cur \/ cur + n <= i ->
  splice cur n row u !! i = row !! i.
Proof.
  intros Hrow Hu Hfit [Hi|Hi]; unfold splice.
  - rewrite lookup_app_l by (rewrite length_take; lia).
    apply lookup_take_lt. exact Hi.
  - rewrite lookup_app_r by (rewrite length_take; lia).
    rewrite length_take, Nat.min_l by lia.
    rewrite lookup_app_r by lia.
    rewrite lookup_drop. f_equal. lia.
Qed.

Section Window.
Context {T Q8 : Type}.
Context (zeroT : T) (quantize_slab : T -> Q8) (materialize_slab : Q8 -> T).

(** An append that fits, on either path: the rows it returns, and
    stores, are the cached rows with the window replaced. *)
Lemma append_fits (cfg : Config) (c : CacheVars)
    (key value : tensor T) (n : nat) (attention_mask : option mask) (b m : nat) :
  cache_shape materialize_slab c b m ->
  request_shape key value attention_mask b n m ->
  mesh_ok cfg m ->
  (0 <= write_cursor c)%Z -> (write_cursor c + Z.of_nat n <= Z.of_nat m)%Z ->
  let cur := Z.to_nat (write_cursor c) in
  let k := zip_with (splice cur n) (array_of materialize_slab (cached_key c)) key in
  let v := zip_with (splice cur n) (array_of materialize_slab (cached_value c)) value in
  exists mask',
    _concatenate_to_cache zeroT quantize_slab materialize_slab cfg (Some c)
      key value n attention_mask
    = Ok ({| cached_key := store quantize_slab cfg k;
             cached_value := store quantize_slab cfg v;
             cache_index := (write_cursor c + Z.of_nat n)%Z |},
          (k, v, mask')).
Proof.
  intros Hc Hreq Hmesh H0 Hfit cur k v. unfold write_cursor in *.
  pose proof Hc as (Hck & Hcv & Hb & Hm).
  pose proof Hreq as (Hk & Hv & _).
  destruct (append_result zeroT quantize_slab materialize_slab cfg c key value n
              attention_mask b m Hc Hreq Hmesh) as
    (k' & v' & mask' & Heq & _ & _ & _ & Hpath); try lia.
  exists mask'. rewrite Heq.
  assert (Hkv : k' = k /\ v' = v).
  { destruct (sharded_path cfg n) eqn:Hp.
    - destruct (sharded_path_inv cfg n Hp) as (-> & _ & _).
      destruct (Hmesh (proj1 (proj2 (sharded_path_inv cfg 1 Hp)))) as [HP Hmod].
      assert (Hcur : (0 <= cache_index c < 2 ^ 31)%Z) by lia.
      rewrite (append_sharded zeroT quantize_slab materialize_slab cfg c key value
                 1 attention_mask b m Hp Hc Hk Hv HP Hmod Hcur) in Heq.
      injection Heq as _ _ _ Hk' Hv'. subst k' v'.
      split; apply (inserted_is_spliced _ _ b m); (assumption || lia).
    - destruct Hpath as (_ & -> & ->).
      rewrite (clamp_index_fit _ m n) by lia.
      split; apply (zip_with_ext_shape _ _ _ _ b m n); try assumption;
        intros row r _ Hr; unfold update_slice, splice; rewrite Hr; reflexivity. }
  destruct Hkv as [-> ->]. reflexivity.
Qed.

(** X8: an append that fits writes exactly its window. On either path
    the call returns, and in every row of the key it returns (and
    stores) the [n] positions from the cursor on hold the new row, while
    every position before the cursor and after the window holds what
    the cache held; the same for the value. *)
Theorem append_writes_exactly_its_window (cfg : Config) (c : CacheVars)
    (key value : tensor T) (n : nat) (attention_mask : option mask) (b m : nat) :
  cache_shape materialize_slab c b m ->
  request_shape key value attention_mask b n m ->
  mesh_ok cfg m ->
  (0 <= write_cursor c)%Z -> (write_cursor c + Z.of_nat n <= Z.of_nat m)%Z ->
  let cur := Z.to_nat (write_cursor c) in
  exists c' k v mask',
    _concatenate_to_cache zeroT quantize_slab materialize_slab cfg (Some c)
      key value n attention_mask = Ok (c', (k, v, mask'))
    /\ cached_key c' = store quantize_slab cfg k
    /\ cached_value c' = store quantize_slab cfg v
    /\ (forall j old new, array_of materialize_slab (cached_key c) !! j = Some old ->
          key !! j = Some new ->
          exists row, k !! j = Some row
            /\ (forall i, i < n -> row !! (cur + i) = new !! i)
            /\ (forall i, i < cur \/ cur + n <= i -> row !! i = old !! i))
    /\ (forall j old new, array_of materialize_slab (cached_value c) !! j = Some old ->
          value !! j = Some new ->
          exists row, v !! j = Some row
            /\ (forall i, i < n -> row !! (cur + i) = new !! i)
            /\ (forall i, i < cur \/ cur + n <= i -> row !! i = old !! i)).
Proof.
  intros Hc Hreq Hmesh H0 Hfit cur.
  destruct (append_fits cfg c key value n attention_mask b m Hc Hreq Hmesh H0 Hfit)
    as [mask' Heq]. cbv zeta in Heq. fold cur in Heq.
  pose proof Hc as (Hck & Hcv & _ & _).
  pose proof Hreq as (Hk & Hv & _).
  eexists _, _, _, mask'. split; [exact Heq|].
  split; [reflexivity|]. split; [reflexivity|].
  assert (Hrows : forall (t u : tensor T), has_shape t b m -> has_shape u b n ->
            forall j old new, t !! j = Some old -> u !! j = Some new ->
            exists row, zip_with (splice cur n) t u !! j = Some row
              /\ (forall i, i < n -> row !! (cur + i) = new !! i)
              /\ (forall i, i < cur \/ cur + n <= i -> row !! i = old !! i)).
  { intros t u [_ Ht] [_ Hu] j old new Hold Hnew.
    exists (splice cur n old new). split.
    - apply lookup_zip_with_Some. exists old, new. auto.
    - rewrite Forall_lookup in Ht. rewrite Forall_lookup in Hu.
      pose proof (Ht j old Hold) as Hlo. pose proof (Hu j new Hnew) as Hln.
      cbn beta in Hlo, Hln. unfold write_cursor in *. split.
      + intros i Hi. exact (splice_lookup_window old new cur n i Hlo Hln
                              ltac:(lia) Hi).
      + intros i Hi. exact (splice_lookup_outside old new cur n i Hlo Hln
                              ltac:(lia) Hi). }
  split; [exact (Hrows _ _ Hck Hk) | exact (Hrows _ _ Hcv Hv)].
Qed.

(** X9: sharding changes the mask and nothing else. For a single token
    that fits, the call on the sharded path and the call with sharding
    switched off leave the same cache and return the same key and value;
    the first hands back the mask it was given, the second the mask with
    the pad row and-ed in. *)
Theorem sharding_changes_only_the_mask (cfg : Config) (c : CacheVars)
    (key value : tensor T) (attention_mask : option mask) (b m : nat) :
  sharded_path cfg 1 = true ->
  cache_shape materialize_slab c b m ->
  request_shape key value attention_mask b 1 m ->
  mesh_ok cfg m ->
  (0 <= write_cursor c)%Z -> (write_cursor c + 1 <= Z.of_nat m)%Z ->
  exists c' k v,
    _concatenate_to_cache zeroT quantize_slab materialize_slab cfg (Some c)
      key value 1 attention_mask = Ok (c', (k, v, attention_mask))
    /\ _concatenate_to_cache zeroT quantize_slab materialize_slab (unsharded cfg)
         (Some c) key value 1 attention_mask
       = Ok (c', (k, v, padded b m (write_cursor c) 1 attention_mask)).
Proof.
  intros Hp Hc Hreq Hmesh H0 Hfit.
  pose proof Hc as (_ & _ & _ & Hm).
  destruct (append_fits cfg c key value 1 attention_mask b m
              Hc Hreq Hmesh H0) as [mask1 H1]; [lia|].
  destruct (append_fits (unsharded cfg) c key value 1
              attention_mask b m Hc Hreq (mesh_ok_unsharded cfg m) H0)
    as [mask2 H2]; [lia|].
  cbv zeta in H1, H2. unfold write_cursor in *.
  destruct (append_result zeroT quantize_slab materialize_slab cfg c key value 1
              attention_mask b m Hc Hreq Hmesh) as
    (k1 & v1 & m1 & E1 & _ & _ & _ & P1); try lia.
  destruct (append_result zeroT quantize_slab materialize_slab (unsharded cfg) c
              key value 1 attention_mask b m Hc Hreq (mesh_ok_unsharded cfg m)) as
    (k2 & v2 & m2 & E2 & _ & _ & _ & P2); try lia.
  rewrite Hp in P1. rewrite sharded_path_unsharded in P2.
  destruct P2 as (Hm2 & _).
  assert (Hmask1 : mask1 = attention_mask).
  { rewrite E1 in H1. congruence. }
  assert (Hmask2 : mask2 = padded b m (cache_index c) 1 attention_mask).
  { rewrite E2 in H2. congruence. }
  subst mask1 mask2.
  eexists _, _, _. split; [exact H1 | exact H2].
Qed.

(** X10: past the capacity the sharded path writes nothing. With the
    cursor at or beyond [max_length] no shard holds it: the call returns
    the cached key and value as they are and stores them again, and moves
    the cursor on all the same (the non-sharded path overwrites the last
    position there). *)
Theorem sharded_append_beyond_capacity_writes_nothing (cfg : Config)
    (c : CacheVars) (key value : tensor T) (attention_mask : option mask)
    (b m : nat) :
  sharded_path cfg 1 = true ->
  cache_shape materialize_slab c b m ->
  has_shape key b 1 -> has_shape value b 1 ->
  0 < mesh_sp cfg -> m mod mesh_sp cfg = 0 ->
  (Z.of_nat m <= write_cursor c < 2 ^ 31)%Z ->
  _concatenate_to_cache zeroT quantize_slab materialize_slab cfg (Some c)
    key value 1 attention_mask
  = Ok ({| cached_key := Plain (array_of materialize_slab (cached_key c));
           cached_value := Plain (array_of materialize_slab (cached_value c));
           cache_index := add32 (write_cursor c) 1 |},
        (array_of materialize_slab (cached_key c),
         array_of materialize_slab (cached_value c), attention_mask)).
Proof.
  intros Hp Hc Hk Hv HP Hmod Hcur. unfold write_cursor in *.
  pose proof Hc as (Hck & Hcv & _ & _).
  destruct (sharded_path_inv cfg 1 Hp) as (_ & _ & Hq).
  rewrite (append_sharded zeroT quantize_slab materialize_slab cfg c key value 1
             attention_mask b m Hp Hc Hk Hv HP Hmod) by lia.
  rewrite (inserted_out_of_range _ _ b m _ Hck (length_tokens key b Hk)) by lia.
  rewrite (inserted_out_of_range _ _ b m _ Hcv (length_tokens value b Hv)) by lia.
  unfold store. rewrite Hq. reflexivity.
Qed.

(** X11: an append longer than the cache is refused by the array
    update. On the non-sharded path new rows of more than [max_length]
    positions make [lax.dynamic_update_slice] raise [TypeError], for any
    cursor. *)
Theorem oversized_append_raises (cfg : Config) (c : CacheVars)
    (key value : tensor T) (query_len n : nat) (attention_mask : option mask)
    (b m : nat) :
  sharded_path cfg query_len = false ->
  cache_shape materialize_slab c b m ->
  has_shape key b n -> m < n ->
  _concatenate_to_cache zeroT quantize_slab materialize_slab cfg (Some c)
    key value query_len attention_mask = Raise TypeError.
Proof.
  intros Hp (Hck & _ & Hb & _) Hk Hn.
  unfold _concatenate_to_cache. rewrite Hp.
  unfold dynamic_update_slice at 1.
  rewrite (has_shape_shape1 _ _ _ Hck Hb), (has_shape_shape1 _ _ _ Hk Hb).
  rewrite (proj2 (Nat.leb_gt n m)) by exact Hn.
  rewrite andb_false_r. reflexivity.
Qed.

(** X12: the sharded path takes one position and asserts it. Entered
    because the query has one position, with new rows of any other
    length it raises [AssertionError]. *)
Theorem sharded_append_asserts_one_position (cfg : Config) (c : CacheVars)
    (key value : tensor T) (n : nat) (attention_mask : option mask) (b m : nat) :
  sharded_path cfg 1 = true ->
  cache_shape materialize_slab c b m ->
  has_shape key b n -> n <> 1 ->
  0 < mesh_sp cfg -> m mod mesh_sp cfg = 0 ->
  _concatenate_to_cache zeroT quantize_slab materialize_slab cfg (Some c)
    key value 1 attention_mask = Raise AssertionError.
Proof.
  intros Hp (Hck & _ & Hb & _) Hk Hn HP Hmod.
  unfold _concatenate_to_cache. rewrite Hp.
  unfold shard_map_fn, py_mod.
  rewrite (has_shape_shape1 _ _ _ Hck Hb).
  rewrite (proj2 (Nat.eqb_neq _ 0)) by lia. cbn [bind].
  rewrite Hmod. cbn [Nat.eqb negb].
  destruct (mesh_sp cfg) as [|P]; [lia|].
  cbn [seq mapM]. unfold fn at 1.
  rewrite (has_shape_shape1 _ _ _ Hk Hb).
  rewrite (proj2 (Nat.eqb_neq n 1)) by exact Hn. reflexivity.
Qed.

(** X13: the cache of the Phi attention is the cache of
    [FlaxAttentionModule] with plain storage and no sharding: on the same
    variables and arguments the two functions return the same triple,
    leave the same variables and raise the same errors. *)
Theorem phi_cache_is_the_plain_unsharded_cache (cfg : Config)
    (vars : option (Phi.PhiCacheVars T)) (key value : tensor T)
    (query_len : nat) (attention_mask : option mask) :
  quantize_kv_cache cfg = false ->
  sharded_path cfg query_len = false ->
  _concatenate_to_cache zeroT quantize_slab materialize_slab cfg
    (option_map Phi.as_plain vars) key value query_len attention_mask
  = match Phi._concatenate_to_cache zeroT vars key value query_len attention_mask with
    | Ok (c', out) => Ok (Phi.as_plain c', out)
    | Raise e => Raise e
    end.
Proof.
  intros Hq Hp. destruct vars as [c|]; cbn [option_map].
  - unfold _concatenate_to_cache, Phi._concatenate_to_cache. rewrite Hp.
    unfold store. rewrite Hq. cbn [Phi.as_plain cached_key cached_value
      cache_index array_of].
    destruct (dynamic_update_slice (Phi.cached_key c) key 0 (Phi.cache_index c))
      as [k|e]; [|reflexivity]. cbn [bind].
    destruct (dynamic_update_slice (Phi.cached_value c) value 0 (Phi.cache_index c))
      as [v|e]; [|reflexivity]. cbn [bind].
    destruct (combine_masks _ attention_mask) as [a|e]; reflexivity.
  - unfold _concatenate_to_cache, Phi._concatenate_to_cache, store, zeros_like.
    rewrite Hq. reflexivity.
Qed.

End Window.

(** *** A whole session *)

Lemma zip_with_app_assoc {A} (x y z : tensor A) :
  zip_with app (zip_with app x y) z = zip_with app x (zip_with app y z).
Proof.
  revert y z. induction x as [|a x IH]; intros y z; [reflexivity|].
  destruct y as [|b y]; [reflexivity|]. destruct z as [|c z]; [reflexivity|].
  cbn [zip_with]. rewrite IH, app_assoc. reflexivity.
Qed.

Lemma zip_with_app_nil {A} (x : tensor A) (b : nat) :
  length x = b -> zip_with app x (replicate b []) = x.
Proof.
  intros <-. induction x as [|a x IH]; [reflexivity|].
  cbn [length replicate zip_with]. rewrite IH, app_nil_r. reflexivity.
Qed.

Lemma has_shape_app {A} (x y : tensor A) (b p q : nat) :
  has_shape x b p -> has_shape y b q -> has_shape (zip_with app x y) b (p + q).
Proof.
  intros [Hx Hxr] [Hy Hyr]. split; [rewrite length_zip_with; lia|].
  clear Hx Hy. revert y Hyr.
  induction Hxr as [|r x Hr _ IH]; intros y Hyr; [constructor|].
  destruct Hyr as [|s y Hs Hyr]; cbn [zip_with]; constructor.
  - rewrite length_app. lia.
  - apply IH. exact Hyr.
Qed.

Lemma has_shape_replicate {A} (b k : nat) (z : A) :
  has_shape (replicate b (replicate k z)) b k.
Proof.
  split; [apply length_replicate|].
  apply Forall_replicate. apply length_replicate.
Qed.

(** Splicing new rows in at the end of what was written extends the
    written part and shortens the tail of zeros. *)
Lemma splice_log {A} (z : A) (K key : tensor A) (b m cur n : nat) :
  has_shape K b cur -> has_shape key b n -> cur + n <= m ->
  zip_with (splice cur n)
    (zip_with app K (replicate b (replicate (m - cur) z))) key
  = zip_with app (zip_with app K key)
      (replicate b (replicate (m - (cur + n)) z)).
Proof.
  intros [HK HKr] [Hk Hkr] Hfit. subst b. clear Hk.
  revert key Hkr. induction HKr as [|r K Hr _ IH]; intros key Hkr.
  - reflexivity.
  - destruct Hkr as [|u key Hu Hkr]; [reflexivity|].
    cbn [length replicate zip_with]. rewrite (IH key Hkr). f_equal.
    unfold splice.
    rewrite take_app_length' by lia.
    rewrite drop_app_ge by lia. rewrite Hr.
    replace (cur + n - cur) with n by lia.
    rewrite drop_replicate.
    replace (m - cur - n) with (m - (cur + n)) by lia.
    rewrite app_assoc. reflexivity.
Qed.

Section Log.
Context {T Q8 : Type}.
Context (zeroT : T) (quantize_slab : T -> Q8) (materialize_slab : Q8 -> T).

(** From a cache that holds [K] and [V] followed by zeros, the steps
    append their rows in order. *)
Lemma run_extends_log (cfg : Config) (b m : nat) (steps : list step)
    (K V : tensor T) (cur : nat) :
  quantize_kv_cache cfg = false -> mesh_ok cfg m ->
  0 < b -> (Z.of_nat m < 2 ^ 31)%Z ->
  has_shape K b cur -> has_shape V b cur ->
  steps_shape steps b m -> cur + total_len steps <= m ->
  run zeroT quantize_slab materialize_slab cfg
    (Some {| cached_key := Plain (zip_with app K (replicate b (replicate (m - cur) zeroT)));
             cached_value := Plain (zip_with app V (replicate b (replicate (m - cur) zeroT)));
             cache_index := Z.of_nat cur |}) steps
  = Ok (Some
      {| cached_key :=
           Plain (zip_with app
                    (zip_with app K (concatenate_seq b (map step_key steps)))
                    (replicate b (replicate (m - (cur + total_len steps)) zeroT)));
         cached_value :=
           Plain (zip_with app
                    (zip_with app V (concatenate_seq b (map step_value steps)))
                    (replicate b (replicate (m - (cur + total_len steps)) zeroT)));
         cache_index := Z.of_nat (cur + total_len steps) |}).
Proof.
  intros Hq Hmesh Hb Hm HK HV Hsteps. revert K V cur HK HV.
  induction Hsteps as [|s steps Hs _ IH]; intros K V cur HK HV Hfit.
  - cbn [run map total_len foldr concatenate_seq].
    rewrite (zip_with_app_nil K b (proj1 HK)), (zip_with_app_nil V b (proj1 HV)).
    rewrite Nat.add_0_r. reflexivity.
  - cbn [total_len foldr] in Hfit. fold (total_len steps) in Hfit.
    pose proof Hs as (Hk & Hv & _).
    assert (Hc : cache_shape materialize_slab
                   {| cached_key := Plain (zip_with app K
                                             (replicate b (replicate (m - cur) zeroT)));
                      cached_value := Plain (zip_with app V
                                               (replicate b (replicate (m - cur) zeroT)));
                      cache_index := Z.of_nat cur |} b m).
    { unfold cache_shape. cbn [cached_key cached_value array_of].
      replace m with (cur + (m - cur)) at 2 4 by lia.
      split; [apply has_shape_app; [exact HK | apply has_shape_replicate]|].
      split; [apply has_shape_app; [exact HV | apply has_shape_replicate]|].
      split; assumption. }
    cbn [run].
    destruct (append_fits zeroT quantize_slab materialize_slab cfg _
                (step_key s) (step_value s) (step_len s) (step_mask s) b m
                Hc Hs Hmesh) as [mask' Heq];
      [cbn; lia | cbn; lia |].
    rewrite Heq. cbn [bind fst write_cursor cache_index cached_key cached_value
                        array_of].
    rewrite Nat2Z.id.
    rewrite (splice_log zeroT K (step_key s) b m cur (step_len s) HK Hk) by lia.
    rewrite (splice_log zeroT V (step_value s) b m cur (step_len s) HV Hv) by lia.
    unfold store. rewrite Hq. rewrite <- Nat2Z.inj_add.
    rewrite (IH (zip_with app K (step_key s)) (zip_with app V (step_value s))
               (cur + step_len s)
               (has_shape_app _ _ _ _ _ HK Hk) (has_shape_app _ _ _ _ _ HV Hv))
      by lia.
    cbn [map total_len foldr concatenate_seq]. fold (total_len steps).
    fold (concatenate_seq b (map step_key steps)).
    fold (concatenate_seq b (map step_value steps)).
    rewrite !zip_with_app_assoc, Nat.add_assoc. reflexivity.
Qed.

(** X14: the cache is a log. A session with plain storage that starts
    with the initialising call and goes on with well-shaped appends of
    [n1, n2, ...] positions, [n1 + n2 + ... <= max_length] in all, ends
    with the cursor at that sum and with a cache that holds, in every
    batch row, the appended key rows one after the other in the order of
    the calls, followed by zeros up to [max_length]; the values
    likewise. *)
Theorem session_cache_is_the_log_of_appends (cfg : Config) (b m : nat)
    (first : step) (steps : list step) :
  quantize_kv_cache cfg = false -> mesh_ok cfg m ->
  0 < b -> (Z.of_nat m < 2 ^ 31)%Z ->
  has_shape (step_key first) b m -> has_shape (step_value first) b m ->
  steps_shape steps b m -> total_len steps <= m ->
  run zeroT quantize_slab materialize_slab cfg None (first :: steps)
  = Ok (Some
      {| cached_key :=
           Plain (zip_with app (concatenate_seq b (map step_key steps))
                    (replicate b (replicate (m - total_len steps) zeroT)));
         cached_value :=
           Plain (zip_with app (concatenate_seq b (map step_value steps))
                    (replicate b (replicate (m - total_len steps) zeroT)));
         cache_index := Z.of_nat (total_len steps) |}).
Proof.
  intros Hq Hmesh Hb Hm Hk0 Hv0 Hsteps Hfit.
  cbn [run _concatenate_to_cache bind fst]. unfold store. rewrite Hq.
  assert (Hz : forall t : tensor T, has_shape t b m ->
            zeros_like zeroT t
            = zip_with app (replicate b []) (replicate b (replicate (m - 0) zeroT))).
  { intros t [Ht Htr]. subst b. unfold zeros_like. rewrite Nat.sub_0_r.
    clear Hk0 Hv0 Hsteps Hb.
    induction Htr as [|r t Hr _ IH]; [reflexivity|].
    cbn [map length replicate zip_with app]. rewrite IH. f_equal.
    subst m. clear. induction r as [|x r IHr]; [reflexivity|].
    cbn [map length replicate]. rewrite IHr. reflexivity. }
  rewrite (Hz _ Hk0), (Hz _ Hv0).
  assert (He : has_shape (replicate b (@nil T)) b 0).
  { split; [apply length_replicate|]. apply Forall_replicate. reflexivity. }
  change 0%Z with (Z.of_nat 0).
  rewrite (run_extends_log cfg b m steps (replicate b []) (replicate b []) 0
             Hq Hmesh Hb Hm He He Hsteps) by lia.
  cbn [Nat.add].
  assert (Hnil : forall x : tensor T, length x = b ->
            zip_with app (replicate b []) x = x).
  { intros x Hx. subst b. clear. induction x as [|r x IH]; [reflexivity|].
    cbn [length replicate zip_with app]. rewrite IH. reflexivity. }
  assert (Hlen : forall xs : list (tensor T),
            Forall (fun x => length x = b) xs -> length (concatenate_seq b xs) = b).
  { intros xs Hxs. unfold concatenate_seq.
    induction Hxs as [|x xs Hx _ IH]; cbn [foldr].
    - apply length_replicate.
    - rewrite length_zip_with. lia. }
  rewrite !Hnil; [reflexivity| |].
  - apply Hlen. apply Forall_map. eapply Forall_impl; [exact Hsteps|].
    intros s (_ & [Hv _] & _). exact Hv.
  - apply Hlen. apply Forall_map. eapply Forall_impl; [exact Hsteps|].
    intros s ([Hk _] & _). exact Hk.
Qed.

End Log.

(** *** The examples *)

Lemma cache16_at_shape (i : Z) : cache_shape id (cache16_at i) 1 16.
Proof.
  unfold cache_shape, has_shape. simpl.
  split; [split; [reflexivity | repeat constructor]|].
  split; [split; [reflexivity | repeat constructor]|].
  split; [lia | reflexivity].
Qed.

Lemma one_token_shape (k v : nat) (a : option mask) (m : nat) :
  a = None -> request_shape [[k]] [[v]] a 1 1 m.
Proof.
  intros ->. unfold request_shape, has_shape. simpl.
  repeat split; repeat constructor.
Qed.

Lemma sharded_config_mesh_ok : mesh_ok sharded_config 16.
Proof. intros _. split; [simpl; lia | reflexivity]. Qed.

Lemma append_writes_exactly_its_window_witness :
  exists c' k v mask' row,
    _concatenate_to_cache 0 id id sharded_config (Some (cache16_at 5))
      [[7]] [[8]] 1 None = Ok (c', (k, v, mask'))
    /\ k !! 0 = Some row
    /\ row !! 5 = Some 7 /\ row !! 4 = Some 104 /\ row !! 6 = Some 106.
Proof.
  destruct (append_writes_exactly_its_window 0 id id sharded_config (cache16_at 5)
              [[7]] [[8]] 1 None 1 16 (cache16_at_shape 5)
              (one_token_shape 7 8 None 16 eq_refl) sharded_config_mesh_ok)
    as (c' & k & v & mask' & Hcall & _ & _ & Hkey & _);
    [simpl; lia | simpl; lia |].
  destruct (Hkey 0 (seq 100 16) [7] eq_refl eq_refl) as (row & Hrow & Hin & Hout).
  exists c', k, v, mask', row. split; [exact Hcall|]. split; [exact Hrow|].
  split; [exact (Hin 0 ltac:(lia))|].
  split; [exact (Hout 4 ltac:(simpl; lia)) | exact (Hout 6 ltac:(simpl; lia))].
Defined.

Lemma sharding_changes_only_the_mask_witness :
  exists c' k v,
    _concatenate_to_cache 0 id id sharded_config (Some (cache16_at 5))
      [[7]] [[8]] 1 None = Ok (c', (k, v, None))
    /\ _concatenate_to_cache 0 id id (unsharded sharded_config) (Some (cache16_at 5))
         [[7]] [[8]] 1 None
       = Ok (c', (k, v, padded 1 16 5 1 None)).
Proof.
  apply (sharding_changes_only_the_mask 0 id id sharded_config (cache16_at 5)
           [[7]] [[8]] None 1 16 eq_refl (cache16_at_shape 5)
           (one_token_shape 7 8 None 16 eq_refl) sharded_config_mesh_ok);
    simpl; lia.
Defined.

Lemma sharded_append_beyond_capacity_writes_nothing_witness :
  _concatenate_to_cache 0 id id sharded_config (Some (cache16_at 16))
    [[7]] [[8]] 1 None
  = Ok (cache16_at 17, ([seq 100 16], [seq 200 16], None)).
Proof.
  apply (sharded_append_beyond_capacity_writes_nothing 0 id id sharded_config
           (cache16_at 16) [[7]] [[8]] None 1 16 eq_refl (cache16_at_shape 16)).
  - split; [reflexivity | repeat constructor].
  - split; [reflexivity | repeat constructor].
  - simpl. lia.
  - reflexivity.
  - simpl. lia.
Defined.

Lemma oversized_append_raises_witness :
  _concatenate_to_cache 0 id id plain_config (Some full_cache)
    [[7; 8; 9]] [[1; 2; 3]] 3 None = Raise TypeError.
Proof.
  apply (oversized_append_raises 0 id id plain_config full_cache
           [[7; 8; 9]] [[1; 2; 3]] 3 3 None 1 2 eq_refl).
  - unfold cache_shape, has_shape. simpl. repeat split; repeat constructor.
  - split; [reflexivity | repeat constructor].
  - lia.
Defined.

Lemma sharded_append_asserts_one_position_witness :
  _concatenate_to_cache 0 id id sharded_config (Some (cache16_at 5))
    [[7; 8]] [[1; 2]] 1 None = Raise AssertionError.
Proof.
  apply (sharded_append_asserts_one_position 0 id id sharded_config (cache16_at 5)
           [[7; 8]] [[1; 2]] 2 None 1 16 eq_refl (cache16_at_shape 5)).
  - split; [reflexivity | repeat constructor].
  - lia.
  - simpl. lia.
  - reflexivity.
Defined.

Lemma phi_cache_is_the_plain_unsharded_cache_witness :
  _concatenate_to_cache 0 (@id nat) id plain_config
    (option_map Phi.as_plain
       (Some {| Phi.cached_key := [[1; 2]]; Phi.cached_value := [[3; 4]];
                Phi.cache_index := 0 |}))
    [[7]] [[8]] 1 None
  = Ok (Phi.as_plain {| Phi.cached_key := [[7; 2]]; Phi.cached_value := [[8; 4]];
                        Phi.cache_index := 1 |},
        ([[7; 2]], [[8; 4]], Some [[[[true; false]]]])).
Proof.
  rewrite (phi_cache_is_the_plain_unsharded_cache 0 id id plain_config
             (Some {| Phi.cached_key := [[1; 2]]; Phi.cached_value := [[3; 4]];
                      Phi.cache_index := 0 |}) [[7]] [[8]] 1 None eq_refl eq_refl).
  reflexivity.
Defined.

(** Three tokens after the initialising call: the cache holds them in
    order, then thirteen zeros, and the cursor is at 3. *)
Lemma session_cache_is_the_log_of_appends_witness :
  run 0 id id plain_config None [init16; token 7 8; token 9 10; token 11 12]
  = Ok (Some {| cached_key := Plain [[7; 9; 11] ++ replicate 13 0];
                cached_value := Plain [[8; 10; 12] ++ replicate 13 0];
                cache_index := 3 |}).
Proof.
  rewrite (session_cache_is_the_log_of_appends 0 id id plain_config 1 16 init16
             [token 7 8; token 9 10; token 11 12] eq_refl).
  - reflexivity.
  - intros Hs. discriminate Hs.
  - lia.
  - reflexivity.
  - split; [reflexivity | repeat constructor].
  - split; [reflexivity | repeat constructor].
  - repeat constructor.
  - simpl. lia.
Defined.

End CacheMoreSpec.

(** ** The codec beyond the round-trip bound *)

Module QuantMoreSpec.
Import Quant QuantSpec.

Local Open Scope Q_scope.















Local Close Scope Q_scope.

(** *** binary32: rows that hold a NaN or an infinity *)

Lemma SFmaximum_nan_l (b : spec_float) : SFmaximum S754_nan b = S754_nan.
Proof. reflexivity. Qed.

Lemma SFmaximum_nan_r (a : spec_float) : SFmaximum a S754_nan = S754_nan.
Proof. unfold SFmaximum. destruct (is_nan a); reflexivity. Qed.

Lemma foldl_SFmaximum_nan (l : list spec_float) (a0 : spec_float) :
  a0 = S754_nan \/ S754_nan ∈ l -> foldl SFmaximum a0 l = S754_nan.
Proof.
  revert a0. induction l as [|a l IH]; intros a0 [H0|Hin]; simpl.
  - exact H0.
  - inversion Hin.
  - apply IH. left. rewrite H0. apply SFmaximum_nan_l.
  - apply IH. inversion Hin; subst.
    + left. apply SFmaximum_nan_r.
    + right. assumption.
Qed.

Lemma SFmul_nan_r (a : spec_float) : SFmul prec32 emax32 a S754_nan = S754_nan.
Proof. destruct a; reflexivity. Qed.

Lemma SFmaximum_inf_l (b : spec_float) :
  is_nan b = false -> SFmaximum (S754_infinity false) b = S754_infinity false.
Proof. destruct b as [| [|] | |]; try reflexivity. discriminate. Qed.

Lemma SFmaximum_inf_r (a : spec_float) :
  is_nan a = false -> SFmaximum a (S754_infinity false) = S754_infinity false.
Proof. destruct a as [| [|] | |]; try reflexivity. discriminate. Qed.

Lemma foldl_SFmaximum_inf (l : list spec_float) (a0 : spec_float) :
  is_nan a0 = false -> Forall (fun a => is_nan a = false) l ->
  a0 = S754_infinity false \/ S754_infinity false ∈ l ->
  foldl SFmaximum a0 l = S754_infinity false.
Proof.
  intros H0 Hall. revert a0 H0.
  induction Hall as [|a l Ha Hall IH]; intros a0 H0 [E|Hin]; simpl.
  - exact E.
  - inversion Hin.
  - apply IH; [|left]; rewrite E, SFmaximum_inf_l by exact Ha; reflexivity.
  - inversion Hin; subst.
    + apply IH; [|left]; rewrite SFmaximum_inf_r by exact H0; reflexivity.
    + apply IH; [apply SFmaximum_not_nan; assumption | right; assumption].
Qed.

(** X18: [quantize_8bit] / [dequantize_8bit], binary32: one NaN in a
    row makes the scale of the row NaN, and every element of the round
    trip, the numbers of the row too, comes back as NaN. *)
Theorem nan_poisons_its_row (x : list spec_float) :
  S754_nan ∈ x ->
  exists q, quantize_8bit x = Ok (q, S754_nan)
    /\ length q = length x
    /\ roundtrip x = Ok (replicate (length x) S754_nan, S754_nan).
Proof.
  intros Hin. destruct x as [|x0 xs]; [inversion Hin|].
  assert (Hm : foldl SFmaximum (SFabs x0) (map SFabs xs) = S754_nan).
  { apply foldl_SFmaximum_nan. inversion Hin; subst.
    - left. reflexivity.
    - right. change S754_nan with (SFabs S754_nan).
      apply (list_elem_of_fmap_2 SFabs). assumption. }
  assert (Hq : exists q, quantize_8bit (x0 :: xs) = Ok (q, S754_nan)
                         /\ length q = length (x0 :: xs)).
  { rewrite quantize_f32_unfold. rewrite Hm.
    eexists. split; [reflexivity|]. apply length_map. }
  destruct Hq as (q & Hq & Hlen).
  exists q. split; [exact Hq|]. split; [exact Hlen|].
  unfold roundtrip. rewrite Hq. unfold bind. cbn [fst snd].
  f_equal. f_equal. rewrite <- Hlen. unfold dequantize_8bit.
  clear. induction q as [|c q IH]; [reflexivity|].
  cbn [map length replicate]. rewrite IH. f_equal.
  apply SFmul_nan_r.
Qed.

Lemma nan_poisons_its_row_witness :
  exists q, quantize_8bit [ S754_finite false 8388608 (-23); S754_nan ]
            = Ok (q, S754_nan)
    /\ length q = 2%nat
    /\ roundtrip [ S754_finite false 8388608 (-23); S754_nan ]
       = Ok (replicate 2 S754_nan, S754_nan).
Proof.
  apply (nan_poisons_its_row [ S754_finite false 8388608 (-23); S754_nan ]).
  apply list_elem_of_further, list_elem_of_here.
Defined.

(** The code of a number under an infinite scale. *)
Lemma code_under_infinite_scale (v : spec_float) :
  Float32.is_number v = true ->
  f_to_int8 (clip (f_round (f_mul v (f_div (f_of_int 1) (S754_infinity false))))
               (f_of_int (-128)) (f_of_int 127)) = 0%Z.
Proof.
  destruct v as [s| | |s m e]; try discriminate; intros _;
    destruct s; reflexivity.
Qed.

(** X19: [quantize_8bit] / [dequantize_8bit], binary32: an infinity in
    a row without NaN makes the scale of the row +inf; every number of
    the row is then coded 0 and comes back from the round trip as NaN
    (0 * inf). *)
Theorem infinity_erases_its_row (x : list spec_float) (sg : bool) :
  Forall (fun a => is_nan a = false) x ->
  S754_infinity sg ∈ x ->
  exists q d, quantize_8bit x = Ok (q, S754_infinity false)
    /\ roundtrip x = Ok (d, S754_infinity false)
    /\ forall i xi, x !! i = Some xi -> Float32.is_number xi = true ->
         q !! i = Some 0%Z /\ d !! i = Some S754_nan.
Proof.
  intros Hnan Hin. destruct x as [|x0 xs]; [inversion Hin|].
  assert (Hm : foldl SFmaximum (SFabs x0) (map SFabs xs) = S754_infinity false).
  { inversion Hnan as [|? ? H0 Hrest]; subst.
    apply foldl_SFmaximum_inf.
    - apply SFabs_not_nan. exact H0.
    - apply Forall_map. eapply Forall_impl; [exact Hrest|].
      intros a Ha. apply SFabs_not_nan. exact Ha.
    - inversion Hin; subst.
      + left. reflexivity.
      + right. change (S754_infinity false) with (SFabs (S754_infinity sg)).
        apply (list_elem_of_fmap_2 SFabs). assumption. }
  pose proof (quantize_f32_unfold x0 xs) as Hq. cbv zeta in Hq.
  rewrite Hm in Hq.
  change (SFdiv prec32 emax32 (SFmaximum SF_1em5 (S754_infinity false)) (SFof_int 127))
    with (S754_infinity false) in Hq.
  eexists _, _. split; [exact Hq|].
  unfold roundtrip. rewrite Hq. unfold bind. cbn [fst snd].
  split; [reflexivity|].
  intros i xi Hi Hnum.
  assert (Hc : map (fun v => f_to_int8 (clip (f_round (f_mul v (f_div (f_of_int 1) (S754_infinity false))))
                                  (f_of_int (-128)) (f_of_int 127))) (x0 :: xs) !! i
               = Some 0%Z).
  { rewrite list_lookup_fmap, Hi. simpl. f_equal.
    apply code_under_infinite_scale. exact Hnum. }
  split; [exact Hc|].
  unfold dequantize_8bit. rewrite list_lookup_fmap, Hc. reflexivity.
Qed.

Lemma infinity_erases_its_row_witness :
  exists q d, quantize_8bit [ S754_finite false 8388608 (-23); S754_infinity true ]
              = Ok (q, S754_infinity false)
    /\ roundtrip [ S754_finite false 8388608 (-23); S754_infinity true ]
       = Ok (d, S754_infinity false)
    /\ forall i xi,
         [ S754_finite false 8388608 (-23); S754_infinity true ] !! i = Some xi ->
         Float32.is_number xi = true ->
         q !! i = Some 0%Z /\ d !! i = Some S754_nan.
Proof.
  apply (infinity_erases_its_row
           [ S754_finite false 8388608 (-23); S754_infinity true ] true).
  - repeat constructor.
  - apply list_elem_of_further, list_elem_of_here.
Defined.

(** *** The [Linear8bit] module at the exact arithmetic *)

Import Linear8.

Local Open Scope Q_scope.





(** X21: [Linear8bit.from_linear], [to_linear] and [__call__]: a
    linear layer whose kernel is [None] (a tied embedding) converts
    without error to a module with neither codes nor scales, converts
    back to a layer whose kernel is [None], and raises AssertionError
    on every input when it is called. *)
Theorem layer_without_kernel_cannot_be_called
    (linear : Linear (option (matrix Q)) Q) (inputs : list Q) :
  lin_kernel linear = None ->
  exists l8, from_linear linear = Ok l8
    /\ kernel l8 = None /\ scales l8 = None
    /\ (exists back, to_linear l8 = Ok back /\ lin_kernel back = NoKernel)
    /\ get_kernel l8 = Ok NoKernel
    /\ __call__ l8 inputs = Raise AssertionError.
Proof.
  intros Hk. unfold from_linear. rewrite Hk. simpl.
  eexists. split; [reflexivity|]. repeat split.
  eexists. split; reflexivity.
Qed.

Lemma layer_without_kernel_cannot_be_called_witness :
  exists l8,
    from_linear {| lin_in_features := 2; lin_out_features := 3;
                   lin_use_bias := false; lin_kernel := None;
                   lin_bias := None |} = Ok l8
    /\ kernel l8 = None /\ scales l8 = None
    /\ (exists back, to_linear l8 = Ok back /\ lin_kernel back = NoKernel)
    /\ get_kernel l8 = Ok NoKernel
    /\ __call__ l8 [1; 2] = Raise AssertionError.
Proof.
  apply (layer_without_kernel_cannot_be_called
           {| lin_in_features := 2; lin_out_features := 3;
              lin_use_bias := false; lin_kernel := None;
              lin_bias := None |} [1; 2]).
  reflexivity.
Defined.








Local Close Scope Q_scope.

End QuantMoreSpec.

(** ** Rotary halves and process ranks *)

Module UtilsSpec.
Import Utils.

(** X23: [rotate_half]: the length of the last axis is kept, and for an
    even length rotating twice negates every element (a quarter turn
    taken twice is a half turn). *)
Theorem rotate_half_twice_negates {A} (neg : A -> A) (x : list A) :
  Nat.even (length x) = true ->
  length (rotate_half neg x) = length x
  /\ rotate_half neg (rotate_half neg x) = map neg x.
Proof.
  intros Heven.
  apply Nat.even_spec in Heven. destruct Heven as [h Hh].
  assert (Hhalf : length x / 2 = h).
  { rewrite Hh. rewrite Nat.mul_comm. apply Nat.div_mul. lia. }
  assert (Hlen : length (rotate_half neg x) = length x).
  { unfold rotate_half. rewrite length_app, length_map, length_drop, length_take. lia. }
  split; [exact Hlen|].
  unfold rotate_half at 1. rewrite Hlen, Hhalf.
  unfold rotate_half. rewrite Hhalf.
  assert (Hl2 : length (map neg (drop h x)) = h).
  { rewrite length_map, length_drop. lia. }
  rewrite drop_app_length' by (symmetry; exact Hl2).
  rewrite take_app_length' by (symmetry; exact Hl2).
  rewrite <- map_app. rewrite take_drop. reflexivity.
Qed.

Lemma rotate_half_twice_negates_witness :
  length (rotate_half Z.opp [1; 2; 3; 4]%Z) = 4
  /\ rotate_half Z.opp (rotate_half Z.opp [1; 2; 3; 4]%Z)
     = map Z.opp [1; 2; 3; 4]%Z.
Proof.
  apply (rotate_half_twice_negates Z.opp [1; 2; 3; 4]%Z).
  reflexivity.
Defined.

(** X24: [get_ranks_and_size]: with at least one local device the call
    returns; [mp_node_size] is at least 1, so none of the divisions by
    it can fail; the two ranks decompose the process index,
    [process_index = dp_node_rank * mp_node_size + mp_node_rank] with
    [mp_node_rank < mp_node_size]; and [dp_node_rank < dp_node_size]
    when [mp_node_size] divides the process count. Without a local
    device the first division raises ZeroDivisionError. *)
Theorem ranks_decompose_process_index
    (tp sp local_device_count process_count process_index : nat) :
  process_index < process_count ->
  (0 < local_device_count ->
   exists r,
     get_ranks_and_size tp sp local_device_count process_count process_index
     = Ok r
     /\ mp_node_size r = Nat.max 1 (tp * sp / local_device_count)
     /\ 1 <= mp_node_size r
     /\ process_index = dp_node_rank r * mp_node_size r + mp_node_rank r
     /\ mp_node_rank r < mp_node_size r
     /\ (process_count mod mp_node_size r = 0 ->
         dp_node_rank r < dp_node_size r
         /\ dp_node_size r * mp_node_size r = process_count))
  /\ (local_device_count = 0 ->
      get_ranks_and_size tp sp local_device_count process_count process_index
      = Raise ZeroDivisionError).
Proof.
  intros Hidx. split.
  - intros Hdev. unfold get_ranks_and_size, py_floordiv, py_mod.
    assert (Hz : (local_device_count =? 0) = false) by (apply Nat.eqb_neq; lia).
    rewrite Hz. cbn [bind].
    set (m := Nat.max 1 (tp * sp / local_device_count)).
    assert (Hm : 1 <= m) by (unfold m; lia).
    assert (Hmz : (m =? 0) = false) by (apply Nat.eqb_neq; lia).
    rewrite Hmz. cbn [bind].
    eexists. split; [reflexivity|]. cbn [mp_node_size dp_node_size dp_node_rank mp_node_rank].
    split; [reflexivity|]. split; [exact Hm|].
    pose proof (Nat.div_mod_eq process_index m) as Hdm.
    pose proof (Nat.mod_upper_bound process_index m ltac:(lia)) as Hub.
    split; [lia|]. split; [exact Hub|].
    intros Hdiv.
    pose proof (Nat.div_mod_eq process_count m) as Hcm. rewrite Hdiv in Hcm.
    split; [|lia].
    apply Nat.Div0.div_lt_upper_bound. lia.
  - intros ->. reflexivity.
Qed.

Lemma ranks_decompose_process_index_witness :
  exists r, get_ranks_and_size 4 2 4 8 5 = Ok r
    /\ mp_node_size r = 2 /\ dp_node_size r = 4
    /\ dp_node_rank r = 2 /\ mp_node_rank r = 1.
Proof.
  destruct (ranks_decompose_process_index 4 2 4 8 5 ltac:(lia)) as [H _].
  destruct (H ltac:(lia)) as (r & Hr & _).
  exists r. split; [exact Hr|].
  injection Hr as <-. repeat split.
Defined.

End UtilsSpec.
